(** * A user registry over SQLite: the repository and its REST handlers

    Shallow embedding of [app.py].  The Python functions are translated one
    by one ([connect_to_db], [create_db_table], [insert_user], [get_users],
    [get_user_by_id], [update_user], [delete_user] and the five [api_*]
    handlers).  The SQLite engine they talk to is not part of the program;
    it is modelled in [Module Sqlite] from the schema the program declares
    (an [INTEGER PRIMARY KEY AUTOINCREMENT] key, five [TEXT NOT NULL]
    columns, [UNIQUE] on [email]) and from the five statements it issues.

    Conventions of the embedding:
    - a function of the program that touches the database is a computation
      [M A := table -> result A * table]: it may return or raise, and it
      hands back the store it leaves behind;
    - what the outside world decides (whether the database file can be
      opened, whether the engine fails on a statement for a reason of its
      own: locked file, I/O error, damaged file) comes in as an [env];
    - logging is left out: it has no influence on results or on the store;
    - request bodies are the values [request.get_json()] yields for a JSON
      [null] ([None]) and for a JSON object (a [dict]); JSON numbers with a
      fraction or an exponent are not part of the value model, and strings
      are text the engine can store as it is. *)

From stdpp Require Import base numbers list strings gmap pretty sorting.

Local Open Scope Z_scope.

(** ** Python values, exceptions and results *)

Module Py.

(** The values a parsed JSON document is made of. *)
#[warnings="-register-all"]
Inductive pyval : Type :=
| PNone
| PBool (b : bool)
| PInt (z : Z)
| PStr (s : string)
| PList (l : list pyval)
| PDict (m : gmap string pyval).

(** Which constraint of the schema a statement ran into. *)
Inductive constraint : Type :=
| NotNull (column : string)
| Unique (column : string).

(** The exceptions that can occur in the program.  The first four are
    the classes of [sqlite3.Error] that matter here; [InterfaceError] is
    what binding an unsupported Python object raises (newer Pythons raise
    [ProgrammingError], also a [sqlite3.Error] and not an
    [IntegrityError]).  The last three are builtin exceptions, which no
    [except sqlite3.Error] clause catches; [TypeError] is also what a
    [with] statement raises on an object that is no context manager
    ([AttributeError] before Python 3.11, caught by no clause either). *)
Inductive exn : Type :=
| IntegrityError (c : constraint)
| OperationalError
| DatabaseError
| InterfaceError
| OverflowError
| TypeError
| KeyError (key : string).

(** [isinstance(x, sqlite3.IntegrityError)] *)
Definition is_IntegrityError (x : exn) : bool :=
  match x with IntegrityError _ => true | _ => false end.

(** [isinstance(x, sqlite3.Error)] *)
Definition is_sqlite_Error (x : exn) : bool :=
  match x with
  | IntegrityError _ | OperationalError | DatabaseError | InterfaceError => true
  | OverflowError | TypeError | KeyError _ => false
  end.

Inductive result (A : Type) : Type :=
| Ret (a : A)
| Raise (x : exn).
Arguments Ret {A} a.
Arguments Raise {A} x.

(** [d[key]] on a dict *)
Definition subscript (d : gmap string pyval) (key : string) : result pyval :=
  match d !! key with
  | Some v => Ret v
  | None => Raise (KeyError key)
  end.

(** [key in d] on a dict *)
Definition contains (d : gmap string pyval) (key : string) : bool :=
  bool_decide (is_Some (d !! key)).

(** Truth value of a dict: empty is false. *)
Definition dict_truthy (d : gmap string pyval) : bool :=
  negb (bool_decide (d = ∅)).

End Py.
Export Py.

(** ** The store *)

Module Sqlite.

(** Storage classes of the values that reach the engine. *)
Inductive sqlval : Type :=
| SNull
| SInteger (z : Z)
| SText (s : string).

Definition min_int64 : Z := - 2 ^ 63.
Definition max_rowid : Z := 2 ^ 63 - 1.

(** How the [sqlite3] module adapts a Python object to a parameter:
    [None] is NULL, [bool] and [int] are INTEGER (an [int] outside 64 bits
    raises [OverflowError]), [str] is TEXT, anything else is refused. *)
Definition adapt (v : pyval) : result sqlval :=
  match v with
  | PNone => Ret SNull
  | PBool b => Ret (SInteger (if b then 1 else 0))
  | PInt z =>
      if decide (min_int64 <= z <= max_rowid) then Ret (SInteger z)
      else Raise OverflowError
  | PStr s => Ret (SText s)
  | PList _ | PDict _ => Raise InterfaceError
  end.

(** Parameters are bound left to right; the first failure is raised. *)
Fixpoint bind_parameters (vs : list pyval) : result (list sqlval) :=
  match vs with
  | [] => Ret []
  | v :: vs' =>
      match adapt v with
      | Raise x => Raise x
      | Ret p =>
          match bind_parameters vs' with
          | Raise x => Raise x
          | Ret ps => Ret (p :: ps)
          end
      end
  end.

(** A row of [users]: the key and five TEXT cells. *)
Record row : Type := Row {
  user_id : Z;
  name : string;
  email : string;
  phone : string;
  address : string;
  country : string
}.

(** The table: its rows in key order (the order of the key B-tree, which
    is the order a full scan visits them in), and the [sqlite_sequence]
    counter AUTOINCREMENT keeps: the largest key ever handed out. *)
Record table : Type := Table {
  rows : list row;
  seq : Z
}.

(** What [CREATE TABLE IF NOT EXISTS users] makes on a fresh database. *)
Definition empty_table : table := Table [] 0.

(** TEXT affinity of the five columns: an INTEGER is stored as its decimal
    text, TEXT as it is.  NULL has no text and meets NOT NULL. *)
Definition text_affinity (p : sqlval) : option string :=
  match p with
  | SNull => None
  | SInteger z => Some (pretty z)
  | SText s => Some s
  end.

Definition ids (l : list row) : list Z := user_id <$> l.

Definition max_id (l : list row) : Z := foldr Z.max 0 (ids l).

(** The largest key the table has ever held. *)
Definition high_water (t : table) : Z := Z.max (seq t) (max_id (rows t)).

(** Insertion of a row at the place of its key. *)
Fixpoint insert_row (r : row) (l : list row) : list row :=
  match l with
  | [] => [r]
  | r' :: l' =>
      if decide (user_id r < user_id r') then r :: r' :: l'
      else r' :: insert_row r l'
  end.

Definition email_taken (e : string) (l : list row) : bool :=
  bool_decide (e ∈ email <$> l).

(** What a statement leaves in the cursor. *)
Record cursor : Type := Cursor {
  fetchall : list row;
  rowcount : Z;
  lastrowid : Z
}.

Definition fetchone (c : cursor) : option row := head (fetchall c).

(** The five statements of the program. *)
Inductive statement : Type :=
| InsertUser    (* INSERT INTO users (name, email, phone, address, country) VALUES (?, ?, ?, ?, ?) *)
| SelectUsers   (* SELECT * FROM users *)
| SelectUser    (* SELECT * FROM users WHERE user_id = ? *)
| UpdateUser    (* UPDATE users SET name = ?, email = ?, phone = ?, address = ?, country = ? WHERE user_id = ? *)
| DeleteUser.   (* DELETE FROM users WHERE user_id = ? *)

Section Engine.

(** [user_id = ?] compares the integer key with a parameter.  For a TEXT
    parameter the engine first reads the text as a number; which texts
    it reads as which integer is left open here. *)
Variable text_as_integer : string -> option Z.

Definition key_matches (p : sqlval) (r : row) : bool :=
  match p with
  | SNull => false
  | SInteger z => bool_decide (user_id r = z)
  | SText s => bool_decide (text_as_integer s = Some (user_id r))
  end.

(** INSERT: the key is drawn first (AUTOINCREMENT: one more than the
    largest key the table ever held; none is left once that reached the
    largest 64-bit integer, and the statement fails as on a full
    database), then NOT NULL is checked column by column,
    then UNIQUE on [email].  A statement that fails changes nothing. *)
Definition exec_insert (n e p a c : sqlval) (t : table) : result cursor * table :=
  if decide (max_rowid <= high_water t) then (Raise OperationalError, t)
  else
    match text_affinity n, text_affinity e, text_affinity p,
          text_affinity a, text_affinity c with
    | None, _, _, _, _ => (Raise (IntegrityError (NotNull "name")), t)
    | _, None, _, _, _ => (Raise (IntegrityError (NotNull "email")), t)
    | _, _, None, _, _ => (Raise (IntegrityError (NotNull "phone")), t)
    | _, _, _, None, _ => (Raise (IntegrityError (NotNull "address")), t)
    | _, _, _, _, None => (Raise (IntegrityError (NotNull "country")), t)
    | Some n', Some e', Some p', Some a', Some c' =>
        if email_taken e' (rows t)
        then (Raise (IntegrityError (Unique "email")), t)
        else
          let k := high_water t + 1 in
          (Ret (Cursor [] 1 k),
           Table (insert_row (Row k n' e' p' a' c') (rows t)) k)
    end.

(** UPDATE: nothing is checked when no row matches.  Otherwise the new
    cells meet NOT NULL, and the new email must not be that of another
    row. *)
Definition exec_update (n e p a c k : sqlval) (t : table) : result cursor * table :=
  let hit := filter (λ r, key_matches k r = true) (rows t) in
  let others := filter (λ r, key_matches k r ≠ true) (rows t) in
  match hit with
  | [] => (Ret (Cursor [] 0 0), t)
  | _ :: _ =>
      match text_affinity n, text_affinity e, text_affinity p,
            text_affinity a, text_affinity c with
      | None, _, _, _, _ => (Raise (IntegrityError (NotNull "name")), t)
      | _, None, _, _, _ => (Raise (IntegrityError (NotNull "email")), t)
      | _, _, None, _, _ => (Raise (IntegrityError (NotNull "phone")), t)
      | _, _, _, None, _ => (Raise (IntegrityError (NotNull "address")), t)
      | _, _, _, _, None => (Raise (IntegrityError (NotNull "country")), t)
      | Some n', Some e', Some p', Some a', Some c' =>
          if email_taken e' others
          then (Raise (IntegrityError (Unique "email")), t)
          else
            (Ret (Cursor [] (Z.of_nat (length hit)) 0),
             Table ((λ r, if key_matches k r
                          then Row (user_id r) n' e' p' a' c' else r) <$> rows t)
                   (seq t))
      end
  end.

Definition exec_delete (k : sqlval) (t : table) : result cursor * table :=
  let kept := filter (λ r, key_matches k r ≠ true) (rows t) in
  (Ret (Cursor [] (Z.of_nat (length (rows t)) - Z.of_nat (length kept)) 0),
   Table kept (seq t)).

(** A statement with the wrong number of parameters is refused by the
    [sqlite3] module ([ProgrammingError], a [DatabaseError]). *)
Definition exec (s : statement) (ps : list sqlval) (t : table) : result cursor * table :=
  match s, ps with
  | InsertUser, [n; e; p; a; c] => exec_insert n e p a c t
  | SelectUsers, [] => (Ret (Cursor (rows t) (-1) 0), t)
  | SelectUser, [k] =>
      (Ret (Cursor (filter (λ r, key_matches k r = true) (rows t)) (-1) 0), t)
  | UpdateUser, [n; e; p; a; c; k] => exec_update n e p a c k t
  | DeleteUser, [k] => exec_delete k t
  | _, _ => (Raise DatabaseError, t)
  end.

End Engine.

End Sqlite.
Export Sqlite.

(** ** The world outside, and computations on the store *)

(** Why the engine may fail on a statement for a reason of its own. *)
Inductive failure : Type :=
| Unavailable   (* locked file, I/O error, full disk: [OperationalError] *)
| Malformed.    (* damaged database file: [DatabaseError] *)

Definition failure_exn (f : failure) : exn :=
  match f with
  | Unavailable => OperationalError
  | Malformed => DatabaseError
  end.

(** What the environment does during one session: whether
    [sqlite3.connect] succeeds, and whether the engine fails while it
    prepares the statement (before the parameters are bound) or while it
    runs it (after).  A failed statement leaves the store as it was. *)
Record env : Type := Env {
  opens : bool;
  prepare_fault : option failure;
  step_fault : option failure
}.

Definition healthy : env := Env true None None.

(** A computation on the store. *)
Definition M (A : Type) : Type := table -> result A * table.

#[global] Instance M_ret : MRet M := λ A a t, (Ret a, t).

#[global] Instance M_bind : MBind M := λ A B k m t,
  match m t with
  | (Ret a, t') => k a t'
  | (Raise x, t') => (Raise x, t')
  end.

Definition raise {A : Type} (x : exn) : M A := λ t, (Raise x, t).

Definition lift {A : Type} (r : result A) : M A := λ t, (r, t).

(** [try: m  except ...:]  where [handler x] is the clause that catches
    [x], if there is one. *)
Definition try_except {A : Type} (m : M A) (handler : exn -> option (M A)) : M A :=
  λ t,
    match m t with
    | (Ret a, t') => (Ret a, t')
    | (Raise x, t') =>
        match handler x with
        | Some h => h t'
        | None => (Raise x, t')
        end
    end.

(** A [sqlite3.Connection]; as an object without [__bool__] or [__len__]
    it is true in a condition. *)
Inductive connection : Type := Connection.

Definition truthy (c : connection) : bool := true.

(** [with cm as conn: body].  [None] is no context manager: entering the
    block raises [TypeError] and the body does not run. *)
Definition with_ {A : Type} (cm : option connection) (body : connection -> M A) : M A :=
  match cm with
  | None => raise TypeError
  | Some conn => body conn
  end.

(** A response of a handler: the JSON body and the status code. *)
Record response : Type := Response {
  body : pyval;
  status : Z
}.

Definition error (msg : string) : gmap string pyval := {[ "error" := PStr msg ]}.

Definition status_msg (msg : string) : gmap string pyval := {[ "status" := PStr msg ]}.

(** [dict(row)] *)
Definition dict (r : row) : gmap string pyval :=
  <[ "user_id" := PInt (user_id r) ]>
  (<[ "name" := PStr (name r) ]>
  (<[ "email" := PStr (email r) ]>
  (<[ "phone" := PStr (phone r) ]>
  (<[ "address" := PStr (address r) ]>
  (<[ "country" := PStr (country r) ]> ∅))))).

(** [d.get(key) == s] for a string [s] *)
Definition get_is (d : gmap string pyval) (key s : string) : bool :=
  match d !! key with
  | Some (PStr s') => bool_decide (s' = s)
  | _ => false
  end.

(** A call of one of the repository functions, with what the environment
    does during it. *)
Inductive call : Type :=
| Create (e e' : env) (user : gmap string pyval)
| Update (e e' : env) (user : gmap string pyval)
| Delete (e : env) (user_id : Z)
| GetByID (e : env) (user_id : pyval)
| ListAll (e : env).

(** ** Data for the examples *)

(** An engine that reads no text as an integer key; the examples below pass
    integer keys only, so that nothing in them depends on this choice. *)
Definition no_text_key : string -> option Z := λ _, None.

Definition create_fields : list string :=
  ["name"; "email"; "phone"; "address"; "country"].

Definition update_fields : list string := "user_id" :: create_fields.

Definition alice : gmap string pyval :=
  <["name" := PStr "Alice"]> (<["email" := PStr "a@x.com"]> (<["phone" := PStr "123"]>
  (<["address" := PStr "1 Main St"]> (<["country" := PStr "US"]> ∅)))).

Definition alice_row : row := Row 1 "Alice" "a@x.com" "123" "1 Main St" "US".

Definition bob : gmap string pyval := {[ "name" := PStr "Bob" ]}.

(** Alice's payload with a JSON [null] for the name. *)
Definition nameless : gmap string pyval := <["name" := PNone]> alice.

(** The store after Alice was created on the empty store. *)
Definition alice_table : table := Table [alice_row] 1.

(** Alice's payload under another name. *)
Definition alicia : gmap string pyval := <["name" := PStr "Alicia"]> alice.

(** An update of a user 7. *)
Definition alice_as_7 : gmap string pyval := <["user_id" := PInt 7]> alice.

(** A database file that cannot be opened. *)
Definition unreachable : env := Env false None None.

(** A database that opens and then fails on the statement. *)
Definition failing : env := Env true None (Some Unavailable).

(** Alice under a new name, as an update of user 1. *)
Definition alice_b : gmap string pyval :=
  <["user_id" := PInt 1]> (<["name" := PStr "Alice B"]> alice).

Definition alice_b_row : row := Row 1 "Alice B" "a@x.com" "123" "1 Main St" "US".

(** Alice's payload with the number 5 for the name. *)
Definition numbered : gmap string pyval := <["name" := PInt 5]> alice.

(** Alice is created, deleted, and created again. *)
Definition come_and_go : list call :=
  [Create healthy healthy alice; Delete healthy 1; Create healthy healthy alice].

(** Bob with all five fields, and his row as the second user. *)
Definition bob_full : gmap string pyval :=
  <["name" := PStr "Bob"]> (<["email" := PStr "b@x.com"]> (<["phone" := PStr "456"]>
  (<["address" := PStr "2 Side St"]> (<["country" := PStr "LB"]> ∅)))).

Definition bob_row : row := Row 2 "Bob" "b@x.com" "456" "2 Side St" "LB".

(** The store after Alice and then Bob were created. *)
Definition two_users : table := Table [Row 1 "Alice" "a@x.com" "123" "1 Main St" "US"; bob_row] 2.

(** An update of user 2 that takes Alice's email. *)
Definition bob_as_alice : gmap string pyval :=
  <["user_id" := PInt 2]> (<["email" := PStr "a@x.com"]> bob_full).

(** Alice's payload with an array for the name. *)
Definition listed : gmap string pyval := <["name" := PList []]> alice.

(** ** The program *)

Section App.

Variable text_as_integer : string -> option Z.

(** [cursor.execute(sql, params)] *)
Definition execute (e : env) (s : statement) (params : list pyval) : M cursor :=
  λ t,
    match prepare_fault e with
    | Some f => (Raise (failure_exn f), t)
    | None =>
        match bind_parameters params with
        | Raise x => (Raise x, t)
        | Ret ps =>
            match step_fault e with
            | Some f => (Raise (failure_exn f), t)
            | None => exec text_as_integer s ps t
            end
        end
    end.

Definition connect_to_db (e : env) : option connection :=
  if opens e then Some Connection else None.

(** The table is created when the database has none; a database that
    cannot be reached keeps what it has. *)
Definition create_db_table (e : env) (db : option table) : result () * option table :=
  match connect_to_db e with
  | None => (Raise TypeError, db)
  | Some conn =>
      if truthy conn then
        match prepare_fault e, step_fault e, db with
        | None, None, None => (Ret (), Some empty_table)
        | _, _, _ => (Ret (), db)
        end
      else (Ret (), db)
  end.

Definition get_user_by_id (e : env) (user_id : pyval) : M (gmap string pyval) :=
  with_ (connect_to_db e) (λ conn,
    if truthy conn then
      try_except
        (cur ← execute e SelectUser [user_id];
         match fetchone cur with
         | Some row => mret (dict row)
         | None => mret ∅
         end)
        (λ x, if is_sqlite_Error x then Some (mret ∅) else None)
    else mret ∅).

Definition insert_user (e e' : env) (user : gmap string pyval) : M (gmap string pyval) :=
  with_ (connect_to_db e) (λ conn,
    if truthy conn then
      try_except
        (n ← lift (subscript user "name");
         m ← lift (subscript user "email");
         p ← lift (subscript user "phone");
         a ← lift (subscript user "address");
         c ← lift (subscript user "country");
         cur ← execute e InsertUser [n; m; p; a; c];
         let user_id := lastrowid cur in
         get_user_by_id e' (PInt user_id))
        (λ x, if is_IntegrityError x then Some (mret (error "Email must be unique."))
              else if is_sqlite_Error x then Some (mret (error "Failed to insert user."))
              else None)
    else mret (error "Database connection failed.")).

Definition get_users (e : env) : M (list (gmap string pyval)) :=
  with_ (connect_to_db e) (λ conn,
    if truthy conn then
      try_except
        (cur ← execute e SelectUsers [];
         let users := dict <$> fetchall cur in
         mret users)
        (λ x, if is_sqlite_Error x then Some (mret []) else None)
    else mret []).

Definition update_user (e e' : env) (user : gmap string pyval) : M (gmap string pyval) :=
  with_ (connect_to_db e) (λ conn,
    if truthy conn then
      try_except
        (n ← lift (subscript user "name");
         m ← lift (subscript user "email");
         p ← lift (subscript user "phone");
         a ← lift (subscript user "address");
         c ← lift (subscript user "country");
         k ← lift (subscript user "user_id");
         cur ← execute e UpdateUser [n; m; p; a; c; k];
         if decide (rowcount cur = 0) then mret (error "User not found.")
         else k' ← lift (subscript user "user_id"); get_user_by_id e' k')
        (λ x, if is_IntegrityError x then Some (mret (error "Email must be unique."))
              else if is_sqlite_Error x then Some (mret (error "Failed to update user."))
              else None)
    else mret (error "Database connection failed.")).

Definition delete_user (e : env) (user_id : Z) : M (gmap string pyval) :=
  with_ (connect_to_db e) (λ conn,
    if truthy conn then
      try_except
        (cur ← execute e DeleteUser [PInt user_id];
         if decide (rowcount cur = 0) then mret (status_msg "User not found.")
         else mret (status_msg "User deleted successfully."))
        (λ x, if is_sqlite_Error x then Some (mret (status_msg "Failed to delete user."))
              else None)
    else mret (status_msg "Database connection failed.")).

(** *** Handlers *)

Definition api_get_users (e : env) : M response :=
  users ← get_users e;
  mret (Response (PList (PDict <$> users)) 200).

Definition api_get_user (e : env) (user_id : Z) : M response :=
  user ← get_user_by_id e (PInt user_id);
  if dict_truthy user then mret (Response (PDict user) 200)
  else mret (Response (PDict (error "User not found.")) 404).

(** [[field for field in required_fields if field not in user]] *)
Definition missing (required_fields : list string) (user : gmap string pyval) : list string :=
  filter (λ field, contains user field = false) required_fields.

Definition api_add_user (e e' : env) (user : option (gmap string pyval)) : M response :=
  let required_fields := ["name"; "email"; "phone"; "address"; "country"] in
  match user with
  | None => mret (Response (PDict (error "No input data provided.")) 400)
  | Some user =>
      if negb (dict_truthy user)
      then mret (Response (PDict (error "No input data provided.")) 400)
      else if negb (forallb (contains user) required_fields)
      then mret (Response
                   (PDict (error ("Missing fields: " +:+
                                  String.concat ", " (missing required_fields user))))
                   400)
      else
        inserted_user ← insert_user e e' user;
        if contains inserted_user "error"
        then mret (Response (PDict inserted_user) 400)
        else mret (Response (PDict inserted_user) 201)
  end.

Definition api_update_user (e e' : env) (user : option (gmap string pyval)) : M response :=
  let required_fields := ["user_id"; "name"; "email"; "phone"; "address"; "country"] in
  match user with
  | None => mret (Response (PDict (error "No input data provided.")) 400)
  | Some user =>
      if negb (dict_truthy user)
      then mret (Response (PDict (error "No input data provided.")) 400)
      else if negb (forallb (contains user) required_fields)
      then mret (Response
                   (PDict (error ("Missing fields: " +:+
                                  String.concat ", " (missing required_fields user))))
                   400)
      else
        updated_user ← update_user e e' user;
        if contains updated_user "error"
        then mret (Response (PDict updated_user) 400)
        else mret (Response (PDict updated_user) 200)
  end.

Definition api_delete_user (e : env) (user_id : Z) : M response :=
  result ← delete_user e user_id;
  if get_is result "status" "User deleted successfully."
  then mret (Response (PDict result) 200)
  else if get_is result "status" "User not found."
  then mret (Response (PDict result) 404)
  else mret (Response (PDict result) 400).

(** ** What the properties speak of *)

(** The words of the specification for what the validator reports: the
    complete list of the required fields the body lacks, in the order of
    the required fields. *)
Definition complete_ordered_missing
    (required : list string) (user : gmap string pyval) (ms : list string) : Prop :=
  ms `sublist_of` required ∧ ∀ f, f ∈ ms ↔ f ∈ required ∧ user !! f = None.

(** A key in the range of the store's 64-bit INTEGER. *)
Definition is_key (k : Z) : Prop := min_int64 <= k <= max_rowid.

(** No row is under the key a parameter stands for. *)
Definition unmatched (p : sqlval) (l : list row) : Prop :=
  Forall (λ r, key_matches text_as_integer p r = false) l.

(** The engine fails on the statement of the session. *)
Definition engine_fails (e : env) : Prop :=
  is_Some (prepare_fault e) ∨ is_Some (step_fault e).

(** A field of the body holds a value the [sqlite3] module can bind. *)
Definition bound (user : gmap string pyval) (field : string) (p : sqlval) : Prop :=
  ∃ v, user !! field = Some v ∧ adapt v = Ret p.

(** The store takes a field of the body as the text [s]: the value can
    be bound and is no NULL. *)
Definition stored (user : gmap string pyval) (field s : string) : Prop :=
  ∃ p, bound user field p ∧ text_affinity p = Some s.

(** The store a call leaves behind. *)
Definition after (c : call) (t : table) : table :=
  match c with
  | Create e e' user => (insert_user e e' user t).2
  | Update e e' user => (update_user e e' user t).2
  | Delete e user_id => (delete_user e user_id t).2
  | GetByID e user_id => (get_user_by_id e user_id t).2
  | ListAll e => (get_users e t).2
  end.

(** The stores from the one [create_db_table] makes, call after call. *)
Fixpoint history (cs : list call) (t : table) : list table :=
  match cs with
  | [] => [t]
  | c :: cs' => t :: history cs' (after c t)
  end.

(** The stores the program can be in. *)
Inductive reachable : table -> Prop :=
| reachable_empty : reachable empty_table
| reachable_after c t : reachable t -> reachable (after c t).

(** The four ways a statement can leave the table. *)
Inductive evolves (t : table) : table -> Prop :=
| evolves_same : evolves t t
| evolves_insert r :
    user_id r = high_water t + 1 ->
    evolves t (Table (insert_row r (rows t)) (user_id r))
| evolves_update f :
    (∀ r, user_id (f r) = user_id r) ->
    evolves t (Table (f <$> rows t) (seq t))
| evolves_delete (P : row -> Prop) (dec : ∀ r, Decision (P r)) :
    evolves t (Table (filter P (rows t)) (seq t)).

(** Rows in strictly ascending key order. *)
Definition ascending (l : list row) : Prop := StronglySorted Z.lt (ids l).

(** A well-formed table: rows in key order, no key above the counter. *)
Definition wf (t : table) : Prop := ascending (rows t) ∧ max_id (rows t) <= seq t.

(** The rows after an update of the row under key [k] to [r']. *)
Definition replace_row (k : Z) (r' : row) (l : list row) : list row :=
  (λ r, if bool_decide (user_id r = k) then r' else r) <$> l.

(** The rows without the one under key [k]. *)
Definition without (k : Z) (l : list row) : list row :=
  filter (λ r, user_id r ≠ k) l.

(** A value the [sqlite3] module refuses to bind: an array or an object. *)
Definition unsupported (v : pyval) : Prop :=
  match v with
  | PList _ | PDict _ => True
  | _ => False
  end.

(** A value that is no integer beyond 64 bits. *)
Definition fits (v : pyval) : Prop :=
  match v with
  | PInt z => is_key z
  | _ => True
  end.

(** A consistent table: well formed, no email on two rows, every key at
    least 1, and the counter within 64 bits. *)
Definition consistent (t : table) : Prop :=
  wf t ∧ NoDup (email <$> rows t) ∧
  Forall (λ k, 1 <= k) (ids (rows t)) ∧ seq t <= max_rowid.

(** ** Validation *)

Lemma contains_false user f : contains user f = false ↔ user !! f = None.
Proof.
  unfold contains. rewrite bool_decide_eq_false, <- eq_None_not_Some. done.
Qed.

Lemma contains_true user f : contains user f = true ↔ is_Some (user !! f).
Proof. unfold contains. by rewrite bool_decide_eq_true. Qed.

Lemma dict_truthy_true user : dict_truthy user = true ↔ user ≠ ∅.
Proof.
  unfold dict_truthy. rewrite negb_true_iff, bool_decide_eq_false. done.
Qed.

Lemma missing_spec required user :
  complete_ordered_missing required user (missing required user).
Proof.
  unfold complete_ordered_missing, missing. split.
  - apply sublist_filter.
  - intros f. rewrite list_elem_of_filter, contains_false. tauto.
Qed.

(** There is one such list: the one the handlers compute. *)
Lemma complete_ordered_missing_unique required user ms :
  NoDup required →
  complete_ordered_missing required user ms →
  ms = missing required user.
Proof.
  unfold complete_ordered_missing, missing.
  revert ms. induction required as [|g required IH]; intros ms Hnd [Hsub Hin].
  - by apply sublist_nil_r in Hsub.
  - apply NoDup_cons in Hnd as [Hg Hnd].
    destruct (decide (contains user g = false)) as [Hc | Hc].
    + rewrite filter_cons_True by done.
      assert (Hgm : g ∈ ms).
      { apply Hin. split; [apply elem_of_cons; by left | by apply contains_false]. }
      apply sublist_cons_r in Hsub as [Hsub | (ms' & -> & Hsub)].
      { exfalso. apply Hg. eapply elem_of_sublist; eauto. }
      f_equal. apply IH; [done |]. split; [done |]. intros f. split.
      * intros Hf. split; [by eapply elem_of_sublist |].
        apply (Hin f). apply elem_of_cons. by right.
      * intros [Hf Hn]. assert (Hfm : f ∈ g :: ms').
        { apply Hin. split; [apply elem_of_cons; by right | done]. }
        apply elem_of_cons in Hfm as [-> | Hfm]; done.
    + rewrite filter_cons_False by done.
      assert (Hgm : g ∉ ms).
      { intros Hgm%Hin. apply Hc, contains_false. tauto. }
      apply sublist_cons_r in Hsub as [Hsub | (ms' & -> & Hsub)].
      2: { exfalso. apply Hgm. apply elem_of_cons. by left. }
      apply IH; [done |]. split; [done |]. intros f. split.
      * intros Hf. split; [by eapply elem_of_sublist | by apply (Hin f)].
      * intros [Hf Hn]. apply Hin. split; [apply elem_of_cons; by right | done].
Qed.

Lemma forallb_contains_false required user :
  forallb (contains user) required = false ↔ ∃ f, f ∈ required ∧ user !! f = None.
Proof.
  induction required as [|g required IH]; simpl.
  - split; [done | intros (f & Hf & _); by apply elem_of_nil in Hf].
  - rewrite andb_false_iff, contains_false. rewrite IH. split.
    + intros [Hg | (f & Hf & Hn)]; [exists g | exists f]; split; auto;
        apply elem_of_cons; auto.
    + intros (f & Hf & Hn). apply elem_of_cons in Hf as [-> | Hf]; eauto.
Qed.

Lemma forallb_contains_true required user :
  forallb (contains user) required = true ↔ ∀ f, f ∈ required → is_Some (user !! f).
Proof.
  induction required as [|g required IH]; simpl.
  - split; [intros _ f Hf; by apply elem_of_nil in Hf | done].
  - rewrite andb_true_iff, contains_true. rewrite IH. split.
    + intros [Hg Hr] f Hf. apply elem_of_cons in Hf as [-> | Hf]; auto.
    + intros H. split; [apply H | intros f Hf; apply H]; apply elem_of_cons; auto.
Qed.

Lemma api_add_user_empty e e' t :
  api_add_user e e' (Some ∅) t
  = (Ret (Response (PDict (error "No input data provided.")) 400), t).
Proof. reflexivity. Qed.

Lemma api_update_user_empty e e' t :
  api_update_user e e' (Some ∅) t
  = (Ret (Response (PDict (error "No input data provided.")) 400), t).
Proof. reflexivity. Qed.

Lemma api_add_user_missing e e' t user :
  user ≠ ∅ →
  (∃ f, f ∈ create_fields ∧ user !! f = None) →
  api_add_user e e' (Some user) t
  = (Ret (Response (PDict (error ("Missing fields: " +:+
           String.concat ", " (missing create_fields user)))) 400), t).
Proof.
  intros Hne Hmiss. unfold api_add_user.
  apply dict_truthy_true in Hne. rewrite Hne. cbn [negb].
  apply forallb_contains_false in Hmiss. unfold create_fields in Hmiss.
  rewrite Hmiss. reflexivity.
Qed.

Lemma api_update_user_missing e e' t user :
  user ≠ ∅ →
  (∃ f, f ∈ update_fields ∧ user !! f = None) →
  api_update_user e e' (Some user) t
  = (Ret (Response (PDict (error ("Missing fields: " +:+
           String.concat ", " (missing update_fields user)))) 400), t).
Proof.
  intros Hne Hmiss. unfold api_update_user.
  apply dict_truthy_true in Hne. rewrite Hne. cbn [negb].
  apply forallb_contains_false in Hmiss. unfold update_fields, create_fields in Hmiss.
  rewrite Hmiss. reflexivity.
Qed.

(** ** Statements on a store that serves them *)

#[local] Arguments key_matches : simpl never.
#[local] Arguments exec_insert : simpl never.
#[local] Arguments exec_update : simpl never.
#[local] Arguments exec_delete : simpl never.

Lemma adapt_key k : is_key k → adapt (PInt k) = Ret (SInteger k).
Proof. intros Hk. unfold adapt. by rewrite decide_True. Qed.

Lemma bind_key k : is_key k → bind_parameters [PInt k] = Ret [SInteger k].
Proof. intros Hk. unfold bind_parameters. by rewrite adapt_key. Qed.

Lemma execute_healthy s params ps t :
  bind_parameters params = Ret ps →
  execute healthy s params t = exec text_as_integer s ps t.
Proof. intros Hb. unfold execute. simpl. by rewrite Hb. Qed.

Lemma unmatched_key k l : k ∉ ids l → unmatched (SInteger k) l.
Proof.
  intros Hk. apply Forall_forall. intros r Hr. unfold key_matches.
  apply bool_decide_eq_false. intros <-. apply Hk.
  unfold ids. apply list_elem_of_fmap. eauto.
Qed.

Lemma filter_hit_unmatched p l :
  unmatched p l → filter (λ r, key_matches text_as_integer p r = true) l = [].
Proof.
  induction 1 as [|r l Hr _ IH]; [done |].
  rewrite filter_cons_False; [done | congruence].
Qed.

Lemma filter_miss_unmatched p l :
  unmatched p l → filter (λ r, key_matches text_as_integer p r ≠ true) l = l.
Proof.
  induction 1 as [|r l Hr _ IH]; [done |].
  rewrite filter_cons_True; [by rewrite IH | congruence].
Qed.

(** Reading never writes, whatever the environment does. *)
Lemma get_user_by_id_frame e v t : (get_user_by_id e v t).2 = t.
Proof.
  unfold get_user_by_id, connect_to_db, with_, try_except, execute, mbind, M_bind.
  destruct (opens e); [| done]. simpl.
  destruct (prepare_fault e) as [[]|]; try done.
  destruct (adapt v) as [p|[]]; try done.
  destruct (step_fault e) as [[]|]; try done.
  by destruct (fetchone _).
Qed.

Lemma get_user_by_id_healthy k t :
  is_key k →
  get_user_by_id healthy (PInt k) t
  = (Ret (from_option dict ∅
            (head (filter (λ r, key_matches text_as_integer (SInteger k) r = true) (rows t)))),
     t).
Proof.
  intros Hk.
  unfold get_user_by_id, connect_to_db, with_, try_except, mbind, M_bind. simpl.
  rewrite (execute_healthy _ _ [SInteger k]) by by apply bind_key.
  simpl. unfold fetchone. simpl. by destruct (hd_error _).
Qed.

Lemma get_user_by_id_absent k t :
  is_key k → k ∉ ids (rows t) → get_user_by_id healthy (PInt k) t = (Ret ∅, t).
Proof.
  intros Hk Hn. rewrite get_user_by_id_healthy by done.
  by rewrite filter_hit_unmatched by by apply unmatched_key.
Qed.

Lemma delete_user_absent k t :
  is_key k → k ∉ ids (rows t) →
  delete_user healthy k t = (Ret (status_msg "User not found."), t).
Proof.
  intros Hk Hn.
  unfold delete_user, connect_to_db, with_, try_except, mbind, M_bind. simpl.
  rewrite (execute_healthy _ _ [SInteger k]) by by apply bind_key.
  simpl. unfold exec_delete.
  rewrite filter_miss_unmatched by by apply unmatched_key.
  simpl. rewrite Z.sub_diag. simpl. by destruct t.
Qed.

(** Deleting a key no row has leaves the store as it is, whatever the
    environment does. *)
Lemma delete_user_frame e k t : k ∉ ids (rows t) → (delete_user e k t).2 = t.
Proof.
  intros Hn.
  unfold delete_user, connect_to_db, with_, try_except, execute, mbind, M_bind.
  destruct (opens e); [| done]. simpl.
  destruct (prepare_fault e) as [[]|]; try done.
  unfold adapt. case_decide; [| done].
  destruct (step_fault e) as [[]|]; try done.
  simpl. unfold exec_delete.
  rewrite filter_miss_unmatched by by apply unmatched_key.
  simpl. rewrite Z.sub_diag. simpl. by destruct t.
Qed.

(** ** Start-up, and failures of the environment *)

(** On a database without the table, start-up makes the empty table. *)
Lemma create_db_table_fresh : create_db_table healthy None = (Ret (), Some empty_table).
Proof. reflexivity. Qed.

(** A table that is there is left as it is. *)
Lemma create_db_table_idempotent e t : (create_db_table e (Some t)).2 = Some t.
Proof.
  unfold create_db_table, connect_to_db. destruct (opens e); [| done]. simpl.
  by destruct (prepare_fault e), (step_fault e).
Qed.

(** A failure of the engine during GetByID looks like a key no row has. *)
Lemma get_user_by_id_engine_failure e k t :
  opens e = true → is_key k → engine_fails e →
  get_user_by_id e (PInt k) t = (Ret ∅, t).
Proof.
  intros Ho Hk Hf.
  unfold get_user_by_id, connect_to_db, with_, try_except, execute, mbind, M_bind.
  rewrite Ho. simpl.
  destruct (prepare_fault e) as [[]|] eqn:Hp; try done.
  unfold adapt. rewrite decide_True by done.
  destruct (step_fault e) as [[]|] eqn:Hs; try done.
  destruct Hf as [[? Hf] | [? Hf]]; congruence.
Qed.

(** A database that cannot be opened makes every repository function
    raise: the [with] statement is entered on [None]. *)
Lemma unreachable_database_raises e user k v t :
  opens e = false →
  get_user_by_id e v t = (Raise TypeError, t) ∧
  get_users e t = (Raise TypeError, t) ∧
  (∀ e', insert_user e e' user t = (Raise TypeError, t)) ∧
  (∀ e', update_user e e' user t = (Raise TypeError, t)) ∧
  delete_user e k t = (Raise TypeError, t).
Proof.
  intros Ho.
  unfold get_user_by_id, get_users, insert_user, update_user, delete_user, connect_to_db.
  by rewrite Ho.
Qed.

(** A failure of the engine during Create is reported as a storage failure
    and leaves the store as it was. *)
Lemma insert_user_engine_failure e e' user n m p a c t :
  opens e = true →
  bound user "name" n → bound user "email" m → bound user "phone" p →
  bound user "address" a → bound user "country" c →
  engine_fails e →
  insert_user e e' user t = (Ret (error "Failed to insert user."), t).
Proof.
  intros Ho Hn Hm Hp Ha Hc Hf.
  unfold insert_user, connect_to_db, with_, try_except, mbind, M_bind, lift, subscript.
  rewrite Ho. simpl. unfold execute.
  destruct Hn as (vn & -> & Hn), Hm as (vm & -> & Hm), Hp as (vp & -> & Hp),
    Ha as (va & -> & Ha), Hc as (vc & -> & Hc). simpl.
  destruct (prepare_fault e) as [[]|] eqn:Hpf; try done.
  rewrite Hn, Hm, Hp, Ha, Hc.
  destruct (step_fault e) as [[]|] eqn:Hsf; try done.
  destruct Hf as [[? Hf] | [? Hf]]; congruence.
Qed.

(** ** Keys and insertion *)

Lemma max_id_nonneg l : 0 <= max_id l.
Proof. unfold max_id. induction (ids l); simpl; lia. Qed.

Lemma max_id_bound l k : k ∈ ids l → k <= max_id l.
Proof.
  unfold max_id. induction (ids l) as [|k' ks IH]; simpl; intros Hk.
  - by apply elem_of_nil in Hk.
  - apply elem_of_cons in Hk as [-> | Hk]; [lia | specialize (IH Hk); lia].
Qed.

Lemma high_water_bound t k : k ∈ ids (rows t) → k <= high_water t.
Proof. intros Hk%max_id_bound. unfold high_water. lia. Qed.

Lemma high_water_nonneg t : 0 <= high_water t.
Proof. unfold high_water. pose proof (max_id_nonneg (rows t)). lia. Qed.

Lemma ids_insert_row r l k :
  k ∈ ids (insert_row r l) ↔ k = user_id r ∨ k ∈ ids l.
Proof.
  unfold ids. induction l as [|r' l IH]; simpl.
  - rewrite list_elem_of_singleton. split; [auto | intros [? | []%elem_of_nil]; done].
  - case_decide; simpl; rewrite !elem_of_cons; [tauto |].
    rewrite IH. tauto.
Qed.

(** A row whose key is above all the others goes last. *)
Lemma insert_row_last r l :
  (∀ k, k ∈ ids l → k < user_id r) → insert_row r l = l ++ [r].
Proof.
  induction l as [|r' l IH]; simpl; intros Hk; [done |].
  assert (user_id r' < user_id r).
  { apply Hk. unfold ids. simpl. apply elem_of_cons. by left. }
  rewrite decide_False by lia. rewrite IH; [done |].
  intros k Hin. apply Hk. unfold ids. simpl. apply elem_of_cons. by right.
Qed.

(** The row put in under a key no row has is the one the key finds. *)
Lemma filter_hit_insert_row r l :
  user_id r ∉ ids l →
  filter (λ r', key_matches text_as_integer (SInteger (user_id r)) r' = true)
         (insert_row r l) = [r].
Proof.
  intros Hn.
  assert (Hr : key_matches text_as_integer (SInteger (user_id r)) r = true)
    by by apply bool_decide_eq_true.
  induction l as [|r' l IH]; simpl.
  - by rewrite filter_cons_True, filter_nil.
  - assert (Hr' : key_matches text_as_integer (SInteger (user_id r)) r' ≠ true).
    { unfold key_matches. rewrite bool_decide_eq_true. intros Heq. apply Hn.
      rewrite <- Heq. unfold ids. simpl. apply elem_of_cons. by left. }
    assert (Hl : user_id r ∉ ids l).
    { intros Hin. apply Hn. unfold ids. simpl. apply elem_of_cons. by right. }
    case_decide.
    + rewrite filter_cons_True by done. rewrite filter_cons_False by done.
      by rewrite filter_hit_unmatched by by apply unmatched_key.
    + rewrite filter_cons_False by done. by apply IH.
Qed.

Lemma exec_insert_fresh pn pm pp pa pc n m p a c t :
  text_affinity pn = Some n → text_affinity pm = Some m → text_affinity pp = Some p →
  text_affinity pa = Some a → text_affinity pc = Some c →
  high_water t < max_rowid →
  m ∉ email <$> rows t →
  exec_insert pn pm pp pa pc t
  = (Ret (Cursor [] 1 (high_water t + 1)),
     Table (insert_row (Row (high_water t + 1) n m p a c) (rows t)) (high_water t + 1)).
Proof.
  intros Hn Hm' Hp Ha Hc Hw Hm. unfold exec_insert. rewrite decide_False by lia.
  rewrite Hn, Hm', Hp, Ha, Hc.
  unfold email_taken. by rewrite bool_decide_eq_false_2.
Qed.

(** With the email taken, whatever the other cells are, the statement
    fails on a constraint and changes nothing. *)
Lemma exec_insert_taken n m p a c t e :
  high_water t < max_rowid →
  text_affinity m = Some e →
  e ∈ email <$> rows t →
  ∃ x, exec_insert n m p a c t = (Raise (IntegrityError x), t).
Proof.
  intros Hw Hm He. unfold exec_insert. rewrite decide_False by lia. rewrite Hm.
  destruct (text_affinity n), (text_affinity p), (text_affinity a), (text_affinity c);
    eauto.
  unfold email_taken. rewrite bool_decide_eq_true_2 by done. eauto.
Qed.

Lemma stored_text user field s : user !! field = Some (PStr s) → stored user field s.
Proof. intros H. exists (SText s). split; [by exists (PStr s) | done]. Qed.

Lemma stored_text_inv user field s s' :
  stored user field s → user !! field = Some (PStr s') → s = s'.
Proof.
  intros (p & (v & Hv & Hp) & Hs) H. rewrite H in Hv.
  injection Hv as <-. simpl in Hp. injection Hp as <-. simpl in Hs. by injection Hs.
Qed.

Ltac use_bound H :=
  let v := fresh "v" in
  let Hv := fresh "Hv" in
  let Ha := fresh "Ha" in
  destruct H as (v & Hv & Ha); rewrite Hv; simpl; rewrite ?Ha.

(** What [insert_user] does once its statement reaches the engine. *)
Lemma insert_user_healthy e' user n m p a c t :
  bound user "name" n → bound user "email" m → bound user "phone" p →
  bound user "address" a → bound user "country" c →
  insert_user healthy e' user t
  = match exec_insert n m p a c t with
    | (Ret cur, t') => get_user_by_id e' (PInt (lastrowid cur)) t'
    | (Raise x, t') =>
        (Ret (error (if is_IntegrityError x then "Email must be unique."
                     else "Failed to insert user.")), t')
    end.
Proof.
  intros Hn Hm Hp Ha Hc.
  unfold insert_user, connect_to_db, with_, try_except, mbind, M_bind, lift, subscript.
  simpl. unfold execute. simpl.
  use_bound Hn. use_bound Hm. use_bound Hp. use_bound Ha. use_bound Hc.
  destruct (exec_insert n m p a c t) as [[cur|x] t'] eqn:Hx; simpl.
  - pose proof (get_user_by_id_frame e' (PInt (lastrowid cur)) t') as Hf.
    destruct (get_user_by_id e' (PInt (lastrowid cur)) t') as [[d|y] t''] eqn:Hg;
      simpl in *; subst t''; [done |].
    (* the re-read lets through only what is no [sqlite3.Error] *)
    revert Hg. unfold get_user_by_id, connect_to_db, with_, try_except, execute,
      mbind, M_bind, raise.
    destruct (opens e'); simpl.
    + destruct (prepare_fault e') as [[]|]; simpl; try done.
      case_decide; simpl.
      * destruct (step_fault e') as [[]|]; simpl; try done.
        by destruct (fetchone _).
      * intros [= <-]. done.
    + intros [= <-]. done.
  - destruct x as [x| | | | | |]; simpl; try done.
    all: exfalso; revert Hx; unfold exec_insert; repeat case_match; done.
Qed.

(** GetByID returns a row or the empty record, never an error record. *)
Lemma get_user_by_id_no_error e v t d t' :
  get_user_by_id e v t = (Ret d, t') → d !! "error" = None.
Proof.
  unfold get_user_by_id, connect_to_db, with_, try_except, execute, mbind, M_bind, raise,
    mret, M_ret.
  destruct (opens e); simpl; [| done].
  destruct (prepare_fault e) as [[]|]; simpl; try (intros [= <- <-]; apply lookup_empty).
  destruct (adapt v) as [q|[]]; simpl; try done; try (intros [= <- <-]; apply lookup_empty).
  destruct (step_fault e) as [[]|]; simpl; try (intros [= <- <-]; apply lookup_empty).
  match goal with |- context [fetchone ?cur] => destruct (fetchone cur) as [r|] end;
    intros [= <- <-]; [reflexivity | apply lookup_empty].
Qed.

(** When Create reports a duplicate email: when the statement fails on a
    constraint, be it UNIQUE on the email or NOT NULL on any of the five
    columns. *)
Lemma insert_user_duplicate_email_iff e' user n m p a c t :
  bound user "name" n → bound user "email" m → bound user "phone" p →
  bound user "address" a → bound user "country" c →
  high_water t < max_rowid →
  (insert_user healthy e' user t).1 = Ret (error "Email must be unique.") ↔
  (∃ E, text_affinity m = Some E ∧ E ∈ email <$> rows t) ∨
  SNull ∈ [n; m; p; a; c].
Proof.
  intros Hn Hm Hp Ha Hc Hroom.
  rewrite (insert_user_healthy _ _ n m p a c) by done.
  assert (Hnull : ∀ q, text_affinity q = None ↔ q = SNull) by (by intros []).
  assert (Hin : SNull ∈ [n; m; p; a; c] ↔
                text_affinity n = None ∨ text_affinity m = None ∨ text_affinity p = None ∨
                text_affinity a = None ∨ text_affinity c = None).
  { rewrite !elem_of_cons, !Hnull. pose proof (not_elem_of_nil SNull). intuition. }
  rewrite Hin. clear Hin Hnull.
  unfold exec_insert. rewrite decide_False by lia.
  destruct (text_affinity n) as [n'|]; [| simpl; intuition].
  destruct (text_affinity m) as [m'|]; [| simpl; intuition].
  destruct (text_affinity p) as [p'|]; [| simpl; intuition].
  destruct (text_affinity a) as [a'|]; [| simpl; intuition].
  destruct (text_affinity c) as [c'|]; [| simpl; intuition].
  unfold email_taken. case_bool_decide as Ht; simpl.
  - split; [| done]. intros _. left. eauto.
  - split.
    + intros Hg. exfalso.
      match type of Hg with (get_user_by_id e' ?v ?t').1 = _ =>
        destruct (get_user_by_id e' v t') as [[d|y] t''] eqn:Hget end; [| done].
      simpl in Hg. injection Hg as ->.
      apply get_user_by_id_no_error in Hget. discriminate Hget.
    + intros [(E & [= <-] & HE) | H]; [done |]. intuition discriminate.
Qed.

(** ** Update *)

Lemma exec_update_unmatched n m p a c k t :
  unmatched k (rows t) →
  exec_update text_as_integer n m p a c k t = (Ret (Cursor [] 0 0), t).
Proof. intros Hu. unfold exec_update. by rewrite filter_hit_unmatched. Qed.

Lemma update_user_unmatched e' user n m p a c k t :
  bound user "name" n → bound user "email" m → bound user "phone" p →
  bound user "address" a → bound user "country" c → bound user "user_id" k →
  unmatched k (rows t) →
  update_user healthy e' user t = (Ret (error "User not found."), t).
Proof.
  intros Hn Hm Hp Ha Hc Hk Hu.
  unfold update_user, connect_to_db, with_, try_except, mbind, M_bind, lift, subscript.
  simpl. unfold execute. simpl.
  use_bound Hn. use_bound Hm. use_bound Hp. use_bound Ha. use_bound Hc. use_bound Hk.
  by rewrite exec_update_unmatched.
Qed.

Lemma bound_is_Some user field p : bound user field p → is_Some (user !! field).
Proof. intros (v & Hv & _). eauto. Qed.

Lemma bound_nonempty user field p : bound user field p → dict_truthy user = true.
Proof.
  intros (v & Hv & _). apply dict_truthy_true. intros ->.
  by rewrite lookup_empty in Hv.
Qed.

Lemma all_create_fields user n m p a c :
  bound user "name" n → bound user "email" m → bound user "phone" p →
  bound user "address" a → bound user "country" c →
  forallb (contains user) create_fields = true.
Proof.
  intros Hn Hm Hp Ha Hc. apply forallb_contains_true. intros f Hf.
  unfold create_fields in Hf. repeat (apply elem_of_cons in Hf as [-> | Hf]);
    [by eapply bound_is_Some .. | by apply elem_of_nil in Hf].
Qed.

(** A body with the five fields gets past the validation of Create. *)
Lemma api_add_user_valid e e' user n m p a c t :
  bound user "name" n → bound user "email" m → bound user "phone" p →
  bound user "address" a → bound user "country" c →
  api_add_user e e' (Some user) t
  = match insert_user e e' user t with
    | (Ret d, t') =>
        (Ret (Response (PDict d) (if contains d "error" then 400 else 201)), t')
    | (Raise x, t') => (Raise x, t')
    end.
Proof.
  intros Hn Hm Hp Ha Hc. unfold api_add_user.
  rewrite (bound_nonempty _ _ _ Hn). cbn [negb].
  pose proof (all_create_fields _ _ _ _ _ _ Hn Hm Hp Ha Hc) as Hall.
  unfold create_fields in Hall. rewrite Hall. cbn [negb].
  unfold mbind, M_bind.
  destruct (insert_user e e' user t) as [[d|x] t']; [| done].
  by destruct (contains d "error").
Qed.

(** A body with the six fields gets past the validation of Update. *)
Lemma api_update_user_valid e e' user n m p a c k t :
  bound user "name" n → bound user "email" m → bound user "phone" p →
  bound user "address" a → bound user "country" c → bound user "user_id" k →
  api_update_user e e' (Some user) t
  = match update_user e e' user t with
    | (Ret d, t') =>
        (Ret (Response (PDict d) (if contains d "error" then 400 else 200)), t')
    | (Raise x, t') => (Raise x, t')
    end.
Proof.
  intros Hn Hm Hp Ha Hc Hk. unfold api_update_user.
  rewrite (bound_nonempty _ _ _ Hn). cbn [negb].
  pose proof (all_create_fields _ _ _ _ _ _ Hn Hm Hp Ha Hc) as Hall.
  assert (Hall' : forallb (contains user) update_fields = true).
  { unfold update_fields. cbn [forallb]. rewrite Hall.
    apply bound_is_Some, contains_true in Hk. by rewrite Hk. }
  unfold update_fields, create_fields in Hall'. rewrite Hall'. cbn [negb].
  unfold mbind, M_bind.
  destruct (update_user e e' user t) as [[d|x] t']; [| done].
  by destruct (contains d "error").
Qed.

(** ** Create and read back *)

(** C1, as amended.  For every body whose five required fields hold values
    the store takes as text (JSON strings; integers and booleans, which
    it stores as decimal text; no [null], array or object), with an email
    no row has, on a store that serves the requests and has keys left to
    hand out: Create succeeds (201) and returns the row as re-read under
    the newly assigned [user_id]; a following GetByID on that [user_id]
    yields the same record; its fields are the texts stored, and each
    field submitted as a string is the string submitted. *)
Theorem create_then_get_by_id t user n m p a c :
  stored user "name" n →
  stored user "email" m →
  stored user "phone" p →
  stored user "address" a →
  stored user "country" c →
  m ∉ email <$> rows t →
  high_water t < max_rowid →
  let k := high_water t + 1 in
  let r := Row k n m p a c in
  let t' := Table (insert_row r (rows t)) k in
  insert_user healthy healthy user t = (Ret (dict r), t') ∧
  api_add_user healthy healthy (Some user) t = (Ret (Response (PDict (dict r)) 201), t') ∧
  dict r !! "user_id" = Some (PInt k) ∧
  get_user_by_id healthy (PInt k) t' = (Ret (dict r), t') ∧
  ∀ f s, f ∈ create_fields → user !! f = Some (PStr s) → dict r !! f = Some (PStr s).
Proof.
  intros Hn Hm Hp Ha Hc Hfresh Hroom k r t'.
  pose proof (high_water_nonneg t) as Hw.
  assert (Hk : is_key k) by (unfold is_key, min_int64, k; lia).
  assert (Hnew : user_id r ∉ ids (rows t)).
  { intros Hin%high_water_bound. simpl in Hin. unfold k in Hin. lia. }
  assert (Hget : get_user_by_id healthy (PInt k) t' = (Ret (dict r), t')).
  { rewrite get_user_by_id_healthy by done. unfold t'. cbn [rows].
    change k with (user_id r) at 1. by rewrite filter_hit_insert_row. }
  assert (Hfields : ∀ f s, f ∈ create_fields → user !! f = Some (PStr s) →
                           dict r !! f = Some (PStr s)).
  { intros f s Hf Hs. unfold create_fields in Hf.
    repeat (apply elem_of_cons in Hf as [-> | Hf]); [.. | by apply elem_of_nil in Hf].
    - by rewrite <- (stored_text_inv _ _ _ _ Hn Hs).
    - by rewrite <- (stored_text_inv _ _ _ _ Hm Hs).
    - by rewrite <- (stored_text_inv _ _ _ _ Hp Hs).
    - by rewrite <- (stored_text_inv _ _ _ _ Ha Hs).
    - by rewrite <- (stored_text_inv _ _ _ _ Hc Hs). }
  destruct Hn as (pn & Hn & Hn'), Hm as (pm & Hm & Hm'), Hp as (pp & Hp & Hp'),
    Ha as (pa & Ha & Ha'), Hc as (pc & Hc & Hc').
  assert (Hins : insert_user healthy healthy user t = (Ret (dict r), t')).
  { rewrite (insert_user_healthy _ _ pn pm pp pa pc) by done.
    rewrite (exec_insert_fresh pn pm pp pa pc n m p a c) by done. done. }
  split_and!; [done | | done | done | done].
  rewrite (api_add_user_valid _ _ _ pn pm pp pa pc) by done.
  by rewrite Hins.
Qed.

(** ** Not found *)

(** C7, as amended.  An Update whose body holds in its six fields values
    that can be bound and whose [user_id] matches no row, on a store that
    answers, is answered 400 with [{"error": "User not found."}]; a GET for
    a key within the range of the store's 64-bit INTEGER that no row has is
    answered 404 with the same body. *)
Theorem update_not_found_400_get_404 e' t user n m p a c k j :
  bound user "name" n → bound user "email" m → bound user "phone" p →
  bound user "address" a → bound user "country" c → bound user "user_id" k →
  unmatched k (rows t) →
  is_key j → j ∉ ids (rows t) →
  api_update_user healthy e' (Some user) t
  = (Ret (Response (PDict (error "User not found.")) 400), t) ∧
  api_get_user healthy j t
  = (Ret (Response (PDict (error "User not found.")) 404), t).
Proof.
  intros Hn Hm Hp Ha Hc Hk Hu Hj Hnj. split.
  - rewrite (api_update_user_valid _ _ _ n m p a c k) by done.
    by rewrite (update_user_unmatched _ _ n m p a c k).
  - unfold api_get_user, mbind, M_bind. by rewrite get_user_by_id_absent.
Qed.

(** ** Validation of the body *)

(** C2.  A body that is absent or an empty object is answered 400 with
    ["No input data provided."]: that check comes first.  Every other body
    that lacks a required field (of the five of Create, of the six of
    Update) is answered 400 with the complete list of the required fields
    it lacks, in the order of the required fields. *)
Theorem missing_fields_listed_in_full e e' t user :
  (api_add_user e e' None t
   = (Ret (Response (PDict (error "No input data provided.")) 400), t) ∧
   api_update_user e e' None t
   = (Ret (Response (PDict (error "No input data provided.")) 400), t)) ∧
  (user = ∅ →
   api_add_user e e' (Some user) t
   = (Ret (Response (PDict (error "No input data provided.")) 400), t) ∧
   api_update_user e e' (Some user) t
   = (Ret (Response (PDict (error "No input data provided.")) 400), t)) ∧
  (user ≠ ∅ → (∃ f, f ∈ create_fields ∧ user !! f = None) →
   ∃ ms, complete_ordered_missing create_fields user ms ∧
     api_add_user e e' (Some user) t
     = (Ret (Response (PDict (error ("Missing fields: " +:+ String.concat ", " ms)))
                      400), t)) ∧
  (user ≠ ∅ → (∃ f, f ∈ update_fields ∧ user !! f = None) →
   ∃ ms, complete_ordered_missing update_fields user ms ∧
     api_update_user e e' (Some user) t
     = (Ret (Response (PDict (error ("Missing fields: " +:+ String.concat ", " ms)))
                      400), t)).
Proof.
  split_and!.
  - done.
  - done.
  - intros ->. split; [apply api_add_user_empty | apply api_update_user_empty].
  - intros Hne Hmiss. exists (missing create_fields user).
    split; [apply missing_spec | by apply api_add_user_missing].
  - intros Hne Hmiss. exists (missing update_fields user).
    split; [apply missing_spec | by apply api_update_user_missing].
Qed.

(** C9.  For Create and for Update, the empty JSON object is answered 400
    with ["No input data provided."], not with a list of missing fields:
    the body is tested for falsiness before any field is looked for. *)
Theorem empty_object_is_no_input e e' t :
  api_add_user e e' (Some ∅) t
  = (Ret (Response (PDict (error "No input data provided.")) 400), t) ∧
  api_update_user e e' (Some ∅) t
  = (Ret (Response (PDict (error "No input data provided.")) 400), t).
Proof. split; [apply api_add_user_empty | apply api_update_user_empty]. Qed.

(** ** The stores the program can be in *)

Lemma exec_insert_evolves n m p a c t : evolves t (exec_insert n m p a c t).2.
Proof.
  unfold exec_insert. repeat case_match; simpl; try constructor. done.
Qed.

Lemma exec_update_evolves n m p a c k t :
  evolves t (exec_update text_as_integer n m p a c k t).2.
Proof.
  unfold exec_update. repeat case_match; simpl; try constructor.
  intros r'. by case_match.
Qed.

Lemma exec_evolves s ps t : evolves t (exec text_as_integer s ps t).2.
Proof.
  unfold exec. repeat case_match; simpl; try constructor.
  - apply exec_insert_evolves.
  - apply exec_update_evolves.
Qed.

Lemma execute_evolves e s ps t : evolves t (execute e s ps t).2.
Proof.
  unfold execute. repeat case_match; simpl; try constructor. apply exec_evolves.
Qed.

Lemma insert_user_evolves e e' user t : evolves t (insert_user e e' user t).2.
Proof.
  unfold insert_user, connect_to_db, with_, try_except, mbind, M_bind, lift, subscript,
    raise.
  destruct (opens e); simpl; [| constructor].
  repeat (match goal with |- context [user !! ?f] => destruct (user !! f) end;
          simpl; [| constructor]).
  match goal with |- context [execute e InsertUser ?ps t] =>
    pose proof (execute_evolves e InsertUser ps t) as Hev;
    destruct (execute e InsertUser ps t) as [[cur|x] t1] end; simpl in *.
  - match goal with |- context [get_user_by_id e' ?v t1] =>
      pose proof (get_user_by_id_frame e' v t1) as Hf;
      destruct (get_user_by_id e' v t1) as [[d|y] t2] end; simpl in *; subst t2.
    + done.
    + destruct (is_IntegrityError y), (is_sqlite_Error y); exact Hev.
  - destruct (is_IntegrityError x), (is_sqlite_Error x); exact Hev.
Qed.

Lemma update_user_evolves e e' user t : evolves t (update_user e e' user t).2.
Proof.
  unfold update_user, connect_to_db, with_, try_except, mbind, M_bind, lift, subscript,
    raise.
  destruct (opens e); simpl; [| constructor].
  repeat (match goal with |- context [user !! ?f] => destruct (user !! f) end;
          simpl; [| constructor]).
  match goal with |- context [execute e UpdateUser ?ps t] =>
    pose proof (execute_evolves e UpdateUser ps t) as Hev;
    destruct (execute e UpdateUser ps t) as [[cur|x] t1] end; simpl in *.
  - case_decide; simpl; [done |].
    match goal with |- context [get_user_by_id e' ?v t1] =>
      pose proof (get_user_by_id_frame e' v t1) as Hf;
      destruct (get_user_by_id e' v t1) as [[d|y] t2] end; simpl in *; subst t2.
    + done.
    + destruct (is_IntegrityError y), (is_sqlite_Error y); exact Hev.
  - destruct (is_IntegrityError x), (is_sqlite_Error x); exact Hev.
Qed.

Lemma delete_user_evolves e k t : evolves t (delete_user e k t).2.
Proof.
  unfold delete_user, connect_to_db, with_, try_except, mbind, M_bind, raise.
  destruct (opens e); simpl; [| constructor].
  match goal with |- context [execute e DeleteUser ?ps t] =>
    pose proof (execute_evolves e DeleteUser ps t) as Hev;
    destruct (execute e DeleteUser ps t) as [[cur|x] t1] end; simpl in *.
  - by case_decide.
  - destruct (is_sqlite_Error x); exact Hev.
Qed.

Lemma get_users_frame e t : (get_users e t).2 = t.
Proof.
  unfold get_users, connect_to_db, with_, try_except, execute, mbind, M_bind, raise.
  destruct (opens e); simpl; [| done].
  destruct (prepare_fault e) as [[]|]; try done.
  by destruct (step_fault e) as [[]|].
Qed.

Lemma after_evolves c t : evolves t (after c t).
Proof.
  destruct c; simpl.
  - apply insert_user_evolves.
  - apply update_user_evolves.
  - apply delete_user_evolves.
  - rewrite get_user_by_id_frame. constructor.
  - rewrite get_users_frame. constructor.
Qed.

(** ** Key order and the counter are kept *)

Lemma ascending_cons r l :
  ascending (r :: l) ↔ Forall (λ k, user_id r < k) (ids l) ∧ ascending l.
Proof. unfold ascending, ids. simpl. apply StronglySorted_cons. Qed.

Lemma ascending_NoDup l : ascending l → NoDup (ids l).
Proof.
  induction l as [|r l IH]; [constructor |].
  rewrite ascending_cons. intros [Hr Hl]. unfold ids. simpl. constructor; [| by apply IH].
  intros Hin. rewrite Forall_forall in Hr. specialize (Hr _ Hin). lia.
Qed.

Lemma ascending_insert_row r l :
  ascending l → user_id r ∉ ids l → ascending (insert_row r l).
Proof.
  induction l as [|r' l IH]; simpl; intros Hl Hn.
  - apply ascending_cons. split; [constructor | done].
  - assert (Hne : user_id r ≠ user_id r').
    { intros Heq. apply Hn. unfold ids. simpl. rewrite Heq. apply elem_of_cons. by left. }
    assert (Hn' : user_id r ∉ ids l).
    { intros Hin. apply Hn. unfold ids. simpl. apply elem_of_cons. by right. }
    apply ascending_cons in Hl as [Hr' Hl].
    case_decide.
    + apply ascending_cons. split; [| by apply ascending_cons].
      unfold ids. simpl. constructor; [done |].
      eapply Forall_impl; [exact Hr' |]. simpl. lia.
    + apply ascending_cons. split; [| by apply IH].
      apply Forall_forall. intros k Hk. apply ids_insert_row in Hk as [-> | Hk]; [lia |].
      rewrite Forall_forall in Hr'. by apply Hr'.
Qed.

Lemma ids_filter_subset (P : row → Prop) `{∀ r, Decision (P r)} l k :
  k ∈ ids (filter P l) → k ∈ ids l.
Proof.
  unfold ids. rewrite !list_elem_of_fmap. intros (r & -> & Hr).
  apply list_elem_of_filter in Hr as [_ Hr]. eauto.
Qed.

Lemma ascending_filter (P : row → Prop) `{∀ r, Decision (P r)} l :
  ascending l → ascending (filter P l).
Proof.
  induction l as [|r l IH]; [done |].
  rewrite ascending_cons. intros [Hr Hl].
  destruct (decide (P r)).
  - rewrite filter_cons_True by done. apply ascending_cons. split; [| by apply IH].
    apply Forall_forall. intros k Hk%ids_filter_subset.
    rewrite Forall_forall in Hr. by apply Hr.
  - rewrite filter_cons_False by done. by apply IH.
Qed.

Lemma ids_fmap_keep (f : row → row) l :
  (∀ r, user_id (f r) = user_id r) → ids (f <$> l) = ids l.
Proof.
  intros Hf. unfold ids. induction l as [|r l IH]; [done |].
  rewrite !fmap_cons. by rewrite Hf, IH.
Qed.

Lemma max_id_le l b : (∀ k, k ∈ ids l → k <= b) → 0 <= b → max_id l <= b.
Proof.
  unfold max_id. induction (ids l) as [|k ks IH]; simpl; intros Hb H0; [done |].
  apply Z.max_lub.
  - apply Hb. apply elem_of_cons. by left.
  - apply IH; [| done]. intros k' Hk'. apply Hb. apply elem_of_cons. by right.
Qed.

Lemma wf_high_water t : wf t → high_water t = seq t.
Proof. intros [_ Hs]. unfold high_water. lia. Qed.

Lemma wf_empty : wf empty_table.
Proof. split; [constructor | done]. Qed.

(** A statement keeps the table well formed; the counter never goes down;
    a key that was not there before is above the old counter. *)
Lemma evolves_wf t t' :
  wf t → evolves t t' →
  wf t' ∧ seq t <= seq t' ∧
  ∀ k, k ∈ ids (rows t') → k ∉ ids (rows t) → seq t < k.
Proof.
  intros Hwf Hev. pose proof (wf_high_water t Hwf) as Hhw.
  pose proof (max_id_nonneg (rows t)) as H0.
  destruct Hwf as [Hasc Hseq].
  destruct Hev as [| r Hr | f Hf | P dec]; simpl.
  - split_and!; [by split | lia | tauto].
  - assert (Hnew : user_id r ∉ ids (rows t)).
    { intros Hin%max_id_bound. lia. }
    split_and!.
    + split; simpl; [by apply ascending_insert_row |].
      apply max_id_le; [| lia]. intros k Hk.
      apply ids_insert_row in Hk as [-> | Hk%max_id_bound]; lia.
    + lia.
    + intros k Hk Hnk. apply ids_insert_row in Hk as [-> | Hk]; [lia | done].
  - rewrite (ids_fmap_keep f _ Hf). split_and!; [| lia | tauto].
    split; simpl.
    + unfold ascending. by rewrite (ids_fmap_keep f _ Hf).
    + unfold max_id. by rewrite (ids_fmap_keep f _ Hf).
  - split_and!; [| lia |].
    + split; simpl; [by apply ascending_filter |].
      apply max_id_le; [| lia]. intros k Hk%ids_filter_subset%max_id_bound. lia.
    + intros k Hk%ids_filter_subset Hnk. done.
Qed.

Lemma reachable_wf t : reachable t → wf t.
Proof.
  induction 1 as [|c t _ IH]; [apply wf_empty |].
  by apply (evolves_wf t), after_evolves.
Qed.

Lemma history_head cs t : history cs t !! 0%nat = Some t.
Proof. by destruct cs. Qed.

Lemma history_wf cs t t' : wf t → t' ∈ history cs t → wf t' ∧ seq t <= seq t'.
Proof.
  revert t. induction cs as [|c cs IH]; simpl; intros t Hwf Hin.
  - apply list_elem_of_singleton in Hin as ->. split; [done | lia].
  - apply elem_of_cons in Hin as [-> | Hin]; [split; [done | lia] |].
    destruct (evolves_wf t (after c t) Hwf (after_evolves c t)) as (Hwf' & Hle & _).
    destruct (IH _ Hwf' Hin). split; [done | lia].
Qed.

(** Consecutive stores of a history are one call apart. *)
Lemma history_step cs t j tj tj' :
  history cs t !! j = Some tj → history cs t !! S j = Some tj' →
  ∃ c, tj' = after c tj.
Proof.
  revert t j. induction cs as [|c cs IH]; intros t j Hj HSj.
  - by destruct j.
  - destruct j as [|j]; simpl in *.
    + rewrite history_head in HSj. simplify_eq. eauto.
    + by eapply IH.
Qed.

Lemma history_seq_mono cs t i j ti tj :
  wf t → (i <= j)%nat →
  history cs t !! i = Some ti → history cs t !! j = Some tj →
  wf ti ∧ wf tj ∧ seq ti <= seq tj.
Proof.
  revert t i j. induction cs as [|c cs IH]; intros t i j Hwf Hij Hi Hj.
  - destruct j as [|j]; [| by destruct j]. assert (i = 0)%nat as -> by lia.
    simpl in *. simplify_eq. split_and!; [done | done | lia].
  - destruct i as [|i].
    + simpl in Hi. simplify_eq.
      apply list_elem_of_lookup_2 in Hj.
      destruct (history_wf (c :: cs) ti tj Hwf Hj). done.
    + destruct j as [|j]; [lia |]. simpl in *.
      destruct (evolves_wf t (after c t) Hwf (after_evolves c t)) as (Hwf' & _ & _).
      eapply (IH (after c t) i j); eauto. lia.
Qed.

(** A key that turns up at some step is above every key any earlier store
    held. *)
Lemma history_new_key cs t i j ti tj tj' k k' :
  wf t →
  (i <= j)%nat →
  history cs t !! i = Some ti →
  history cs t !! j = Some tj →
  history cs t !! S j = Some tj' →
  k ∈ ids (rows tj') → k ∉ ids (rows tj) →
  k' ∈ ids (rows ti) →
  k' < k.
Proof.
  intros Hwf Hij Hi Hj HSj Hk Hnk Hk'.
  destruct (history_seq_mono cs t i j ti tj Hwf Hij Hi Hj) as (Hwfi & Hwfj & Hle).
  destruct (history_step cs t j tj tj' Hj HSj) as [c ->].
  destruct (evolves_wf tj (after c tj) Hwfj (after_evolves c tj)) as (_ & _ & Hnew).
  specialize (Hnew k Hk Hnk). apply max_id_bound in Hk'. destruct Hwfi. lia.
Qed.

(** ** The key a Create reports *)

Lemma error_no_user_id msg : error msg !! "user_id" = None.
Proof. unfold error. by rewrite lookup_singleton_ne. Qed.

Lemma dict_user_id r : dict r !! "user_id" = Some (PInt (user_id r)).
Proof. unfold dict. by rewrite lookup_insert_eq. Qed.

(** A record with a [user_id] that GetByID returns is a row of the store
    under the key asked for. *)
Lemma get_user_by_id_returns e j t d t' k :
  get_user_by_id e (PInt j) t = (Ret d, t') →
  d !! "user_id" = Some (PInt k) →
  k = j ∧ k ∈ ids (rows t).
Proof.
  unfold get_user_by_id, connect_to_db, with_, try_except, execute, mbind, M_bind, raise.
  destruct (opens e); simpl; [| done].
  destruct (prepare_fault e) as [[]|]; simpl; try (intros [= <- <-]; done).
  case_decide; simpl; [| done].
  destruct (step_fault e) as [[]|]; simpl; try (intros [= <- <-]; done).
  unfold fetchone. simpl.
  destruct (hd_error _) as [r|] eqn:Hr; simpl; [| intros [= <- <-]; done].
  intros [= <- <-]. rewrite dict_user_id. intros [= <-].
  apply head_Some_elem_of, list_elem_of_filter in Hr as [Hm Hr].
  unfold key_matches in Hm. apply bool_decide_eq_true in Hm. split; [done |].
  unfold ids. apply list_elem_of_fmap. eauto.
Qed.

Lemma exec_insert_cases n m p a c t :
  (∃ x, exec_insert n m p a c t = (Raise x, t) ∧ is_sqlite_Error x = true) ∨
  (∃ r, user_id r = high_water t + 1 ∧
        exec_insert n m p a c t
        = (Ret (Cursor [] 1 (user_id r)), Table (insert_row r (rows t)) (user_id r))).
Proof.
  unfold exec_insert. repeat case_match; try (left; eauto; fail).
  right. by eexists (Row _ _ _ _ _ _).
Qed.

(** A record with a [user_id] that Create returns carries the key drawn
    for the new row. *)
Lemma insert_user_returns e e' user t d t' k :
  insert_user e e' user t = (Ret d, t') →
  d !! "user_id" = Some (PInt k) →
  k = high_water t + 1 ∧ k ∈ ids (rows t').
Proof.
  unfold insert_user, connect_to_db, with_, try_except, mbind, M_bind, lift, subscript,
    raise.
  destruct (opens e); simpl; [| done].
  repeat (match goal with |- context [user !! ?f] => destruct (user !! f) end;
          simpl; [| done]).
  unfold execute.
  destruct (prepare_fault e) as [[]|]; simpl;
    try (intros [= <- <-]; by rewrite error_no_user_id).
  repeat (match goal with |- context [adapt ?v] => destruct (adapt v) as [?|[]] end;
          simpl; try done; try (intros [= <- <-]; by rewrite error_no_user_id)).
  destruct (step_fault e) as [[]|]; simpl;
    try (intros [= <- <-]; by rewrite error_no_user_id).
  match goal with |- context [exec_insert ?n ?m ?p ?a ?c t] =>
    destruct (exec_insert_cases n m p a c t) as [(x & -> & Hx) | (r & Hr & ->)] end;
    simpl.
  - rewrite Hx. destruct (is_IntegrityError x); intros [= <- <-];
      by rewrite error_no_user_id.
  - destruct (get_user_by_id e' (PInt (user_id r)) _) as [[d'|y] t''] eqn:Hg; simpl.
    + intros [= <- <-] Hd.
      pose proof (get_user_by_id_frame e' (PInt (user_id r))
                    (Table (insert_row r (rows t)) (user_id r))) as Hf.
      rewrite Hg in Hf. simpl in Hf. subst t''.
      destruct (get_user_by_id_returns _ _ _ _ _ _ Hg Hd) as [-> Hin]. done.
    + destruct (is_IntegrityError y), (is_sqlite_Error y); intros [= <- <-];
        by rewrite error_no_user_id.
Qed.

(** ** Keys are handed out once *)

(** C6.  Along every run of the program from the empty store: at any time
    no two rows have the same [user_id]; a key that turns up in the store
    is greater than every key any earlier store held, deleted since or
    not; and the [user_id] a Create reports is such a key. *)
Theorem user_ids_increase_never_reused cs :
  let h := history cs empty_table in
  (∀ t, t ∈ h → NoDup (ids (rows t))) ∧
  (∀ i j ti tj tj' k k',
     (i <= j)%nat → h !! i = Some ti → h !! j = Some tj → h !! S j = Some tj' →
     k ∈ ids (rows tj') → k ∉ ids (rows tj) →
     k' ∈ ids (rows ti) → k' < k) ∧
  (∀ i j ti tj e e' user d t' k k',
     (i <= j)%nat → h !! i = Some ti → h !! j = Some tj →
     insert_user e e' user tj = (Ret d, t') → d !! "user_id" = Some (PInt k) →
     k ∈ ids (rows t') ∧ (k' ∈ ids (rows ti) → k' < k)).
Proof.
  intros h. split_and!.
  - intros t Ht. apply ascending_NoDup.
    by destruct (history_wf cs empty_table t wf_empty Ht) as [[] _].
  - intros i j ti tj tj' k k'. apply history_new_key, wf_empty.
  - intros i j ti tj e e' user d t' k k' Hij Hi Hj Hins Hd.
    destruct (insert_user_returns _ _ _ _ _ _ _ Hins Hd) as [-> Hin].
    split; [done |]. intros Hk'%max_id_bound.
    destruct (history_seq_mono cs _ i j ti tj wf_empty Hij Hi Hj) as (Hwfi & Hwfj & Hle).
    rewrite (wf_high_water tj Hwfj). destruct Hwfi. lia.
Qed.

(** * Further properties of the program *)

(** ** Update of a row that is there *)

Lemma key_matches_integer k r :
  key_matches text_as_integer (SInteger k) r = bool_decide (user_id r = k).
Proof. reflexivity. Qed.

Lemma filter_hit_integer k (l : list row) :
  filter (λ r, key_matches text_as_integer (SInteger k) r = true) l
  = filter (λ r, user_id r = k) l.
Proof. apply list_filter_iff. intros r. unfold key_matches. apply bool_decide_eq_true. Qed.

Lemma filter_miss_integer k (l : list row) :
  filter (λ r, key_matches text_as_integer (SInteger k) r ≠ true) l = without k l.
Proof.
  apply list_filter_iff. intros r. unfold key_matches. by rewrite bool_decide_eq_true.
Qed.

Lemma bound_key user k : user !! "user_id" = Some (PInt k) → is_key k →
  bound user "user_id" (SInteger k).
Proof. intros Hu Hk. exists (PInt k). split; [done | by apply adapt_key]. Qed.

(** What [update_user] does once its statement reaches the engine. *)
Lemma update_user_healthy e' user n m p a c k v t :
  bound user "name" n → bound user "email" m → bound user "phone" p →
  bound user "address" a → bound user "country" c →
  user !! "user_id" = Some v → adapt v = Ret k →
  update_user healthy e' user t
  = match exec_update text_as_integer n m p a c k t with
    | (Ret cur, t') =>
        if decide (rowcount cur = 0) then (Ret (error "User not found."), t')
        else get_user_by_id e' v t'
    | (Raise x, t') =>
        (Ret (error (if is_IntegrityError x then "Email must be unique."
                     else "Failed to update user.")), t')
    end.
Proof.
  intros Hn Hm Hp Ha Hc Hv Hk.
  unfold update_user, connect_to_db, with_, try_except, mbind, M_bind, lift, subscript.
  simpl. unfold execute. simpl.
  use_bound Hn. use_bound Hm. use_bound Hp. use_bound Ha. use_bound Hc.
  rewrite Hv. simpl. rewrite Hk.
  destruct (exec_update text_as_integer n m p a c k t) as [[cur|x] t'] eqn:Hx; simpl.
  - case_decide; [done |]. simpl.
    pose proof (get_user_by_id_frame e' v t') as Hf.
    destruct (get_user_by_id e' v t') as [[d|y] t''] eqn:Hg; simpl in *; subst t'';
      [done |].
    revert Hg. unfold get_user_by_id, connect_to_db, with_, try_except, execute,
      mbind, M_bind, raise.
    destruct (opens e'); simpl.
    + destruct (prepare_fault e') as [[]|]; simpl; try done.
      rewrite Hk. destruct (step_fault e') as [[]|]; simpl; try done.
      by destruct (fetchone _).
    + intros [= <-]. done.
  - destruct x as [x| | | | | |]; simpl; try done.
    all: exfalso; revert Hx; unfold exec_update; repeat case_match; done.
Qed.

Lemma exec_update_map_replace n m p a c k (l : list row) :
  (λ r, if key_matches text_as_integer (SInteger k) r
        then Row (user_id r) n m p a c else r) <$> l
  = replace_row k (Row k n m p a c) l.
Proof.
  unfold replace_row. apply list_fmap_ext. intros i r _. rewrite key_matches_integer.
  case_bool_decide; [by subst |done].
Qed.

Lemma head_filter_replace_row k r' (l : list row) :
  user_id r' = k → k ∈ ids l →
  head (filter (λ r, user_id r = k) (replace_row k r' l)) = Some r'.
Proof.
  intros Hr'. unfold replace_row, ids. induction l as [|r l IH]; simpl.
  - intros []%elem_of_nil.
  - intros Hk. case_bool_decide as Heq.
    + by rewrite filter_cons_True.
    + rewrite filter_cons_False by done. apply IH.
      apply elem_of_cons in Hk as [-> | Hk]; done.
Qed.

Lemma exec_update_hit pn pm pp pa pc n m p a c k t :
  text_affinity pn = Some n → text_affinity pm = Some m → text_affinity pp = Some p →
  text_affinity pa = Some a → text_affinity pc = Some c →
  k ∈ ids (rows t) →
  (∀ r, r ∈ rows t → email r = m → user_id r = k) →
  ∃ cur, rowcount cur ≠ 0 ∧
    exec_update text_as_integer pn pm pp pa pc (SInteger k) t
    = (Ret cur, Table (replace_row k (Row k n m p a c) (rows t)) (seq t)).
Proof.
  intros Hn Hm Hp Ha Hc Hk Hmine. unfold exec_update.
  rewrite filter_hit_integer, filter_miss_integer, Hn, Hm, Hp, Ha, Hc.
  destruct (filter (λ r, user_id r = k) (rows t)) as [|r0 hit] eqn:Hhit.
  { exfalso. unfold ids in Hk. apply list_elem_of_fmap in Hk as (r & -> & Hr).
    assert (Hin : r ∈ filter (λ r', user_id r' = user_id r) (rows t))
      by by apply list_elem_of_filter.
    rewrite Hhit in Hin. by apply elem_of_nil in Hin. }
  unfold email_taken. rewrite bool_decide_eq_false_2.
  - eexists. split; [| by rewrite exec_update_map_replace]. simpl. lia.
  - unfold without. intros (r & -> & Hr)%list_elem_of_fmap.
    apply list_elem_of_filter in Hr as [Hne Hr]. apply Hne. by apply Hmine.
Qed.

(** X1.  Update of a row that is there, with values the store takes as
    text and an email no other row has: the row under the key gets the five
    new cells, Update returns it as re-read (200), and a following GetByID
    yields the same record; each field submitted as a string is the string
    submitted. *)
Theorem update_then_get_by_id t user k n m p a c :
  user !! "user_id" = Some (PInt k) →
  is_key k →
  k ∈ ids (rows t) →
  stored user "name" n →
  stored user "email" m →
  stored user "phone" p →
  stored user "address" a →
  stored user "country" c →
  (∀ r, r ∈ rows t → email r = m → user_id r = k) →
  let r' := Row k n m p a c in
  let t' := Table (replace_row k r' (rows t)) (seq t) in
  update_user healthy healthy user t = (Ret (dict r'), t') ∧
  api_update_user healthy healthy (Some user) t
  = (Ret (Response (PDict (dict r')) 200), t') ∧
  get_user_by_id healthy (PInt k) t' = (Ret (dict r'), t') ∧
  ∀ f s, f ∈ create_fields → user !! f = Some (PStr s) → dict r' !! f = Some (PStr s).
Proof.
  intros Hu Hk Hin Hn Hm Hp Ha Hc Hmine r' t'.
  assert (Hfields : ∀ f s, f ∈ create_fields → user !! f = Some (PStr s) →
                           dict r' !! f = Some (PStr s)).
  { intros f s Hf Hs. unfold create_fields in Hf.
    repeat (apply elem_of_cons in Hf as [-> | Hf]); [.. | by apply elem_of_nil in Hf].
    - by rewrite <- (stored_text_inv _ _ _ _ Hn Hs).
    - by rewrite <- (stored_text_inv _ _ _ _ Hm Hs).
    - by rewrite <- (stored_text_inv _ _ _ _ Hp Hs).
    - by rewrite <- (stored_text_inv _ _ _ _ Ha Hs).
    - by rewrite <- (stored_text_inv _ _ _ _ Hc Hs). }
  destruct Hn as (pn & Hn & Hn'), Hm as (pm & Hm & Hm'), Hp as (pp & Hp & Hp'),
    Ha as (pa & Ha & Ha'), Hc as (pc & Hc & Hc').
  assert (Hget : get_user_by_id healthy (PInt k) t' = (Ret (dict r'), t')).
  { rewrite get_user_by_id_healthy by done. unfold t'. cbn [rows].
    rewrite filter_hit_integer, head_filter_replace_row; done. }
  assert (Hupd : update_user healthy healthy user t = (Ret (dict r'), t')).
  { rewrite (update_user_healthy _ _ pn pm pp pa pc (SInteger k) (PInt k))
      by (done || by apply adapt_key).
    destruct (exec_update_hit pn pm pp pa pc n m p a c k t) as (cur & Hcur & ->);
      try done.
    by rewrite decide_False. }
  split_and!; [done | | done | done].
  rewrite (api_update_user_valid _ _ _ pn pm pp pa pc (SInteger k))
    by (done || by apply bound_key).
  by rewrite Hupd.
Qed.

(** X2.  Update on a row that is there is refused with
    ["Email must be unique."] (400) when the statement meets a constraint:
    the new email is that of a row under another key, or one of the five
    values is a [null].  The store is left as it was. *)
Theorem update_constraint_rejected e' t user k n m p a c :
  user !! "user_id" = Some (PInt k) →
  is_key k →
  k ∈ ids (rows t) →
  bound user "name" n → bound user "email" m → bound user "phone" p →
  bound user "address" a → bound user "country" c →
  (∃ E r, text_affinity m = Some E ∧ r ∈ rows t ∧ email r = E ∧ user_id r ≠ k) ∨
  SNull ∈ [n; m; p; a; c] →
  update_user healthy e' user t = (Ret (error "Email must be unique."), t) ∧
  api_update_user healthy e' (Some user) t
  = (Ret (Response (PDict (error "Email must be unique.")) 400), t).
Proof.
  intros Hu Hk Hin Hn Hm Hp Ha Hc Hwhy.
  assert (Hx : ∃ x, exec_update text_as_integer n m p a c (SInteger k) t
                    = (Raise (IntegrityError x), t)).
  { unfold exec_update. rewrite filter_hit_integer, filter_miss_integer.
    destruct (filter (λ r, user_id r = k) (rows t)) as [|r0 hit] eqn:Hhit.
    { exfalso. unfold ids in Hin. apply list_elem_of_fmap in Hin as (r & -> & Hr).
      assert (Hin : r ∈ filter (λ r', user_id r' = user_id r) (rows t))
        by by apply list_elem_of_filter.
      rewrite Hhit in Hin. by apply elem_of_nil in Hin. }
    assert (Hnull : ∀ q, q = SNull → text_affinity q = None) by (by intros ? ->).
    destruct (text_affinity n) as [n'|] eqn:Hn'; [| eauto].
    destruct (text_affinity m) as [m'|] eqn:Hm'; [| eauto].
    destruct (text_affinity p) as [p'|] eqn:Hp'; [| eauto].
    destruct (text_affinity a) as [a'|] eqn:Ha'; [| eauto].
    destruct (text_affinity c) as [c'|] eqn:Hc'; [| eauto].
    destruct Hwhy as [(E & r & HE & Hr & Hem & Hne) | Hnull'].
    - injection HE as ->. unfold email_taken. rewrite bool_decide_eq_true_2; [eauto |].
      apply list_elem_of_fmap. exists r. split; [done |].
      unfold without. by apply list_elem_of_filter.
    - exfalso. rewrite !elem_of_cons in Hnull'.
      destruct Hnull' as [<- | [<- | [<- | [<- | [<- | []%elem_of_nil]]]]]; discriminate. }
  destruct Hx as [x Hx].
  assert (Hupd : update_user healthy e' user t = (Ret (error "Email must be unique."), t)).
  { rewrite (update_user_healthy _ _ n m p a c (SInteger k) (PInt k))
      by (done || by apply adapt_key).
    by rewrite Hx. }
  split; [done |].
  rewrite (api_update_user_valid _ _ _ n m p a c (SInteger k))
    by (done || by apply bound_key).
  by rewrite Hupd.
Qed.

(** ** What a call can do to the store *)

Lemma execute_state e s ps t :
  execute e s ps t = ((execute e s ps t).1, t) ∨
  ∃ qs, bind_parameters ps = Ret qs ∧ execute e s ps t = exec text_as_integer s qs t.
Proof.
  unfold execute.
  destruct (prepare_fault e); [by left |].
  destruct (bind_parameters ps) as [qs|x]; [| by left].
  destruct (step_fault e); [by left |]. right. eauto.
Qed.

Lemma bind_parameters_length ps qs :
  bind_parameters ps = Ret qs → length qs = length ps.
Proof.
  revert qs. induction ps as [|v ps IH]; simpl; intros qs.
  - by intros [= <-].
  - destruct (adapt v); [| done]. destruct (bind_parameters ps) as [qs'|]; [| done].
    intros [= <-]. simpl. by rewrite (IH qs').
Qed.

Lemma bind_parameters_cons v ps q qs :
  bind_parameters (v :: ps) = Ret (q :: qs) → adapt v = Ret q ∧ bind_parameters ps = Ret qs.
Proof.
  simpl. destruct (adapt v); [| done]. destruct (bind_parameters ps); [| done].
  by intros [= -> ->].
Qed.

(** The store after Create is the store before, or the store the INSERT
    made of it. *)
Lemma insert_user_state e e' user t :
  (insert_user e e' user t).2 = t ∨
  ∃ n m p a c, (insert_user e e' user t).2 = (exec_insert n m p a c t).2.
Proof.
  unfold insert_user, connect_to_db, with_, try_except, mbind, M_bind, lift, subscript,
    raise.
  destruct (opens e); simpl; [| by left].
  repeat (match goal with |- context [user !! ?f] => destruct (user !! f) end;
          simpl; [| by left]).
  match goal with |- context [execute e InsertUser ?ps t] =>
    destruct (execute_state e InsertUser ps t) as [Hx | (qs & Hb & Hx)]; rewrite Hx;
    [destruct (execute e InsertUser ps t).1 as [cur|x] | ] end; simpl.
  - pose proof (get_user_by_id_frame e' (PInt (lastrowid cur)) t) as Hf.
    destruct (get_user_by_id e' (PInt (lastrowid cur)) t) as [[d|y] t2]; simpl in *;
      subst t2; [by left |].
    destruct (is_IntegrityError y), (is_sqlite_Error y); by left.
  - destruct (is_IntegrityError x), (is_sqlite_Error x); by left.
  - pose proof (bind_parameters_length _ _ Hb) as Hlen.
    destruct qs as [|qn [|qm [|qp [|qa [|qc [|]]]]]]; try done. simpl.
    right. exists qn, qm, qp, qa, qc.
    destruct (exec_insert qn qm qp qa qc t) as [[cur|x] t1]; simpl.
    + pose proof (get_user_by_id_frame e' (PInt (lastrowid cur)) t1) as Hf.
      destruct (get_user_by_id e' (PInt (lastrowid cur)) t1) as [[d|y] t2]; simpl in *;
        subst t2; [done |].
      by destruct (is_IntegrityError y), (is_sqlite_Error y).
    + by destruct (is_IntegrityError x), (is_sqlite_Error x).
Qed.

(** The store after Update is the store before, or the store the UPDATE
    made of it, under the key the body gives. *)
Lemma update_user_state e e' user t :
  (update_user e e' user t).2 = t ∨
  ∃ n m p a c k v, user !! "user_id" = Some v ∧ adapt v = Ret k ∧
    (update_user e e' user t).2 = (exec_update text_as_integer n m p a c k t).2.
Proof.
  unfold update_user, connect_to_db, with_, try_except, mbind, M_bind, lift, subscript,
    raise.
  destruct (opens e); simpl; [| by left].
  repeat (match goal with |- context [user !! ?f] =>
            let H := fresh "Hlook" in destruct (user !! f) eqn:H end;
          simpl; [| by left]).
  match goal with |- context [execute e UpdateUser ?ps t] =>
    destruct (execute_state e UpdateUser ps t) as [Hx | (qs & Hb & Hx)]; rewrite Hx;
    [destruct (execute e UpdateUser ps t).1 as [cur|x] | ] end; simpl.
  - case_decide; simpl; [by left |].
    match goal with |- context [get_user_by_id e' ?v t] =>
      pose proof (get_user_by_id_frame e' v t) as Hf;
      destruct (get_user_by_id e' v t) as [[d|y] t2] end; simpl in *;
      subst t2; [by left |].
    destruct (is_IntegrityError y), (is_sqlite_Error y); by left.
  - destruct (is_IntegrityError x), (is_sqlite_Error x); by left.
  - pose proof (bind_parameters_length _ _ Hb) as Hlen.
    destruct qs as [|qn [|qm [|qp [|qa [|qc [|qk [|]]]]]]]; try done. simpl.
    do 5 (apply bind_parameters_cons in Hb as [_ Hb]).
    apply bind_parameters_cons in Hb as [Hk _].
    right. exists qn, qm, qp, qa, qc, qk. eexists. split; [done |]. split; [done |].
    destruct (exec_update text_as_integer qn qm qp qa qc qk t) as [[cur|x] t1]; simpl.
    + case_decide; simpl; [done |].
      match goal with |- context [get_user_by_id e' ?v t1] =>
        pose proof (get_user_by_id_frame e' v t1) as Hf;
        destruct (get_user_by_id e' v t1) as [[d|y] t2] end; simpl in *;
        subst t2; [done |].
      by destruct (is_IntegrityError y), (is_sqlite_Error y).
    + by destruct (is_IntegrityError x), (is_sqlite_Error x).
Qed.

(** The store after Delete is the store before, or the store without the
    rows under the key. *)
Lemma delete_user_state e k t :
  (delete_user e k t).2 = t ∨
  (delete_user e k t).2 = Table (without k (rows t)) (seq t).
Proof.
  unfold delete_user, connect_to_db, with_, try_except, mbind, M_bind, raise.
  destruct (opens e); simpl; [| by left].
  destruct (execute_state e DeleteUser [PInt k] t) as [Hx | (qs & Hb & Hx)]; rewrite Hx.
  - destruct (execute e DeleteUser [PInt k] t).1 as [cur|x]; simpl.
    + case_decide; by left.
    + destruct (is_sqlite_Error x); by left.
  - simpl in Hb. unfold adapt in Hb. case_decide; [| done]. injection Hb as <-.
    right. simpl. unfold exec_delete. rewrite filter_miss_integer. simpl.
    by case_decide.
Qed.

Lemma sublist_insert_row r l : l `sublist_of` insert_row r l.
Proof.
  induction l as [|r' l IH]; simpl.
  - apply sublist_nil_l.
  - case_decide; [by apply sublist_cons | by apply sublist_skip].
Qed.

Lemma elem_of_insert_row r l r' : r' ∈ insert_row r l ↔ r' = r ∨ r' ∈ l.
Proof.
  induction l as [|r0 l IH]; simpl.
  - rewrite list_elem_of_singleton. split; [auto | intros [? | []%elem_of_nil]; done].
  - case_decide; rewrite !elem_of_cons; [tauto |]. rewrite IH. tauto.
Qed.

Lemma length_insert_row r l : length (insert_row r l) = S (length l).
Proof. induction l as [|r' l IH]; simpl; [done |]. case_decide; simpl; by rewrite ?IH. Qed.

(** X3.  Create, whatever the body and whatever the environment does,
    keeps every row of the store as it is and in its place among the others:
    it adds at most one row, under the next key, and never lowers the
    counter. *)
Theorem create_keeps_rows e e' user t :
  let t' := (insert_user e e' user t).2 in
  rows t `sublist_of` rows t' ∧
  (length (rows t') ≤ S (length (rows t)))%nat ∧
  seq t <= seq t' ∧
  ∀ r, r ∈ rows t' → r ∈ rows t ∨ user_id r = high_water t + 1.
Proof.
  intros t'. unfold t'.
  destruct (insert_user_state e e' user t) as [-> | (n & m & p & a & c & ->)].
  { split_and!; [done | lia | lia | auto]. }
  destruct (exec_insert_cases n m p a c t) as [(x & -> & _) | (r & Hr & ->)]; simpl.
  { split_and!; [done | lia | lia | auto]. }
  split_and!.
  - apply sublist_insert_row.
  - rewrite length_insert_row. lia.
  - rewrite Hr. unfold high_water. lia.
  - intros r' Hin. rewrite <- Hr. apply elem_of_insert_row in Hin as [-> | ?]; auto.
Qed.

Lemma exec_update_shape n m p a c k t :
  (exec_update text_as_integer n m p a c k t).2 = t ∨
  ∃ n' m' p' a' c',
    (exec_update text_as_integer n m p a c k t).2
    = Table ((λ r, if key_matches text_as_integer k r
                   then Row (user_id r) n' m' p' a' c' else r) <$> rows t) (seq t).
Proof.
  unfold exec_update. repeat case_match; simpl; try (by left).
  right. by eexists _, _, _, _, _.
Qed.

(** X4.  Update, whatever the body and whatever the environment does,
    keeps the keys of the store, their number and their order, and the
    counter; when the body gives an integer [user_id], every row under
    another key stays as it is. *)
Theorem update_keeps_keys e e' user t :
  let t' := (update_user e e' user t).2 in
  ids (rows t') = ids (rows t) ∧
  seq t' = seq t ∧
  ∀ k i r, user !! "user_id" = Some (PInt k) →
           rows t !! i = Some r → user_id r ≠ k → rows t' !! i = Some r.
Proof.
  intros t'. unfold t'.
  destruct (update_user_state e e' user t)
    as [-> | (n & m & p & a & c & k & v & Hv & Hk & ->)]; [done |].
  destruct (exec_update_shape n m p a c k t)
    as [-> | (n' & m' & p' & a' & c' & ->)]; [done |].
  simpl. split_and!.
  - apply ids_fmap_keep. intros r. by case_match.
  - done.
  - intros k0 i r Hu Hi Hne. rewrite Hu in Hv. injection Hv as <-.
    unfold adapt in Hk. case_decide; [| done]. injection Hk as <-.
    rewrite list_lookup_fmap, Hi. simpl. rewrite key_matches_integer.
    by rewrite bool_decide_eq_false_2.
Qed.

Lemma without_idemp k (l : list row) : without k (without k l) = without k l.
Proof.
  unfold without. induction l as [|r l IH]; [done |].
  destruct (decide (user_id r ≠ k)).
  - rewrite !filter_cons_True by done. by rewrite IH.
  - by rewrite filter_cons_False.
Qed.

(** X5.  Delete, whatever the environment does, adds no row, keeps the
    counter, and keeps the rows under every other key as they are and in
    their order. *)
Theorem delete_removes_only_key e k t :
  let t' := (delete_user e k t).2 in
  rows t' `sublist_of` rows t ∧
  seq t' = seq t ∧
  without k (rows t') = without k (rows t).
Proof.
  intros t'. unfold t'.
  destruct (delete_user_state e k t) as [-> | ->]; [done |]. simpl.
  split_and!; [apply sublist_filter | done | apply without_idemp].
Qed.

(** ** Delete of a row that is there *)

Lemma not_elem_of_ids_without k l : k ∉ ids (without k l).
Proof.
  unfold ids, without. intros (r & -> & Hr)%list_elem_of_fmap.
  by apply list_elem_of_filter in Hr as [Hne _].
Qed.

(** X6.  Delete of a key a row has removes the rows under that key and
    no other, keeps the counter, and is answered 200 with
    ["User deleted successfully."]; after it GET by id and a second Delete
    of the key are answered 404. *)
Theorem delete_then_not_found t k :
  is_key k → k ∈ ids (rows t) →
  let t' := Table (without k (rows t)) (seq t) in
  delete_user healthy k t = (Ret (status_msg "User deleted successfully."), t') ∧
  api_delete_user healthy k t
  = (Ret (Response (PDict (status_msg "User deleted successfully.")) 200), t') ∧
  api_get_user healthy k t'
  = (Ret (Response (PDict (error "User not found.")) 404), t') ∧
  api_delete_user healthy k t'
  = (Ret (Response (PDict (status_msg "User not found.")) 404), t').
Proof.
  intros Hk Hin t'.
  assert (Hdel : delete_user healthy k t
                 = (Ret (status_msg "User deleted successfully."), t')).
  { unfold delete_user, connect_to_db, with_, try_except, mbind, M_bind. simpl.
    rewrite (execute_healthy _ _ [SInteger k]) by by apply bind_key.
    simpl. unfold exec_delete. rewrite filter_miss_integer. simpl.
    rewrite decide_False; [done |].
    unfold ids in Hin. apply list_elem_of_fmap in Hin as (r & -> & Hr).
    pose proof (length_filter_lt (λ r', user_id r' ≠ user_id r) (rows t) r Hr) as Hlt.
    unfold without. lia. }
  assert (Hgone : k ∉ ids (rows t')) by apply not_elem_of_ids_without.
  split_and!.
  - done.
  - unfold api_delete_user, mbind, M_bind. by rewrite Hdel.
  - unfold api_get_user, mbind, M_bind. by rewrite get_user_by_id_absent.
  - unfold api_delete_user, mbind, M_bind. by rewrite delete_user_absent.
Qed.

(** ** Failures of the engine, as the handlers report them *)

Lemma update_user_engine_failure e e' user n m p a c k t :
  opens e = true →
  bound user "name" n → bound user "email" m → bound user "phone" p →
  bound user "address" a → bound user "country" c → bound user "user_id" k →
  engine_fails e →
  update_user e e' user t = (Ret (error "Failed to update user."), t).
Proof.
  intros Ho Hn Hm Hp Ha Hc Hk Hf.
  unfold update_user, connect_to_db, with_, try_except, mbind, M_bind, lift, subscript.
  rewrite Ho. simpl. unfold execute.
  destruct Hn as (vn & -> & Hn), Hm as (vm & -> & Hm), Hp as (vp & -> & Hp),
    Ha as (va & -> & Ha), Hc as (vc & -> & Hc), Hk as (vk & -> & Hk). simpl.
  destruct (prepare_fault e) as [[]|] eqn:Hpf; try done.
  rewrite Hn, Hm, Hp, Ha, Hc, Hk.
  destruct (step_fault e) as [[]|] eqn:Hsf; try done.
  destruct Hf as [[? Hf] | [? Hf]]; congruence.
Qed.

Lemma delete_user_engine_failure e k t :
  opens e = true → is_key k → engine_fails e →
  delete_user e k t = (Ret (status_msg "Failed to delete user."), t).
Proof.
  intros Ho Hk Hf.
  unfold delete_user, connect_to_db, with_, try_except, execute, mbind, M_bind.
  rewrite Ho. simpl.
  destruct (prepare_fault e) as [[]|] eqn:Hp; try done.
  unfold adapt. rewrite decide_True by done.
  destruct (step_fault e) as [[]|] eqn:Hs; try done.
  destruct Hf as [[? Hf] | [? Hf]]; congruence.
Qed.

(** X7.  When the database opens and the engine then fails on the
    statement, each write is answered 400 with its own message
    (["Failed to insert user."], ["Failed to update user."],
    ["Failed to delete user."]) and leaves the store as it was. *)
Theorem storage_failure_answers_400 e e' t user n m p a c ku k :
  opens e = true → engine_fails e →
  bound user "name" n → bound user "email" m → bound user "phone" p →
  bound user "address" a → bound user "country" c → bound user "user_id" ku →
  is_key k →
  api_add_user e e' (Some user) t
  = (Ret (Response (PDict (error "Failed to insert user.")) 400), t) ∧
  api_update_user e e' (Some user) t
  = (Ret (Response (PDict (error "Failed to update user.")) 400), t) ∧
  api_delete_user e k t
  = (Ret (Response (PDict (status_msg "Failed to delete user.")) 400), t).
Proof.
  intros Ho Hf Hn Hm Hp Ha Hc Hku Hk. split_and!.
  - rewrite (api_add_user_valid _ _ _ n m p a c) by done.
    by rewrite (insert_user_engine_failure _ _ _ n m p a c).
  - rewrite (api_update_user_valid _ _ _ n m p a c ku) by done.
    by rewrite (update_user_engine_failure _ _ _ n m p a c ku).
  - unfold api_delete_user, mbind, M_bind. by rewrite delete_user_engine_failure.
Qed.

(** X8.  When the database opens and the engine then fails on the query,
    List returns the empty list and is answered 200 with an empty array,
    whatever rows the store holds: the failure cannot be told from an empty
    store. *)
Theorem list_failure_looks_empty e t :
  opens e = true → engine_fails e →
  get_users e t = (Ret [], t) ∧
  api_get_users e t = (Ret (Response (PList []) 200), t) ∧
  api_get_users healthy empty_table = (Ret (Response (PList []) 200), empty_table).
Proof.
  intros Ho Hf.
  assert (Hget : get_users e t = (Ret [], t)).
  { unfold get_users, connect_to_db, with_, try_except, execute, mbind, M_bind.
    rewrite Ho. simpl.
    destruct (prepare_fault e) as [[]|] eqn:Hp; try done.
    destruct (step_fault e) as [[]|] eqn:Hs; try done.
    destruct Hf as [[? Hf] | [? Hf]]; congruence. }
  split_and!; [done | | done].
  unfold api_get_users, mbind, M_bind. by rewrite Hget.
Qed.

(** The two reading handlers leave the store as it is, whatever the key
    and whatever the environment does. *)
Lemma reads_never_write e k t :
  (api_get_user e k t).2 = t ∧ (api_get_users e t).2 = t.
Proof.
  split.
  - unfold api_get_user, mbind, M_bind.
    pose proof (get_user_by_id_frame e (PInt k) t) as Hf.
    destruct (get_user_by_id e (PInt k) t) as [[d|x] t']; simpl in *; subst; [| done].
    by destruct (dict_truthy d).
  - unfold api_get_users, mbind, M_bind.
    pose proof (get_users_frame e t) as Hf.
    by destruct (get_users e t) as [[l|x] t']; simpl in *; subst.
Qed.

(** X9.  When the database cannot be opened, every handler that gets as
    far as the repository raises, and the store is left as it is: no
    response is made for List, GET by id and Delete, nor for a Create or an
    Update whose body passed validation. *)
Theorem unreachable_database_no_response e e' user k t :
  opens e = false →
  (∀ f, f ∈ update_fields → is_Some (user !! f)) →
  api_get_users e t = (Raise TypeError, t) ∧
  api_get_user e k t = (Raise TypeError, t) ∧
  api_delete_user e k t = (Raise TypeError, t) ∧
  api_add_user e e' (Some user) t = (Raise TypeError, t) ∧
  api_update_user e e' (Some user) t = (Raise TypeError, t).
Proof.
  intros Ho Hall.
  assert (Hne : dict_truthy user = true).
  { apply dict_truthy_true. intros ->.
    destruct (Hall "name") as [v Hv]; [unfold update_fields, create_fields; set_solver |].
    by rewrite lookup_empty in Hv. }
  assert (Hupd : forallb (contains user) update_fields = true)
    by by apply forallb_contains_true.
  assert (Hadd : forallb (contains user) create_fields = true).
  { apply forallb_contains_true. intros f Hf. apply Hall.
    unfold update_fields. apply elem_of_cons. by right. }
  unfold api_get_users, api_get_user, api_delete_user, api_add_user, api_update_user,
    get_users, get_user_by_id, delete_user, insert_user, update_user, connect_to_db,
    mbind, M_bind.
  unfold update_fields, create_fields in Hupd, Hadd.
  rewrite Ho, Hne, Hupd, Hadd. done.
Qed.

(** X10.  A key beyond 64 bits makes GET by id and Delete raise
    [OverflowError] when the parameter is bound: no response is made and
    the store is left as it is. *)
Theorem key_out_of_range_raises e k t :
  opens e = true → prepare_fault e = None → ¬ is_key k →
  api_get_user e k t = (Raise OverflowError, t) ∧
  api_delete_user e k t = (Raise OverflowError, t).
Proof.
  intros Ho Hp Hk.
  unfold api_get_user, api_delete_user, get_user_by_id, delete_user, connect_to_db,
    with_, try_except, execute, mbind, M_bind.
  rewrite Ho, Hp. simpl. rewrite decide_False by done. done.
Qed.

(** ** Bodies the repository cannot use *)

(** X11.  The repository functions do not validate: called with a body
    that lacks a field, [insert_user] and [update_user] raise [KeyError]
    for the first field the statement's parameter tuple asks for and the
    body lacks ([user_id] comes last), before anything reaches the engine. *)
Theorem repository_missing_key e e' user t f rest :
  opens e = true →
  (missing create_fields user = f :: rest →
   insert_user e e' user t = (Raise (KeyError f), t)) ∧
  (missing (create_fields ++ ["user_id"]) user = f :: rest →
   update_user e e' user t = (Raise (KeyError f), t)).
Proof.
  intros Ho.
  unfold insert_user, update_user, connect_to_db, with_, try_except, mbind, M_bind, lift,
    subscript, missing, create_fields, contains.
  rewrite Ho. simpl.
  split.
  - rewrite !filter_cons, filter_nil.
    destruct (user !! "name"); simpl; [| by intros [= <- _]].
    destruct (user !! "email"); simpl; [| by intros [= <- _]].
    destruct (user !! "phone"); simpl; [| by intros [= <- _]].
    destruct (user !! "address"); simpl; [| by intros [= <- _]].
    destruct (user !! "country"); simpl; [| by intros [= <- _]].
    done.
  - rewrite !filter_cons, filter_nil.
    destruct (user !! "name"); simpl; [| by intros [= <- _]].
    destruct (user !! "email"); simpl; [| by intros [= <- _]].
    destruct (user !! "phone"); simpl; [| by intros [= <- _]].
    destruct (user !! "address"); simpl; [| by intros [= <- _]].
    destruct (user !! "country"); simpl; [| by intros [= <- _]].
    destruct (user !! "user_id"); simpl; [| by intros [= <- _]].
    done.
Qed.

Lemma bind_unsupported vs :
  Forall fits vs → Exists unsupported vs → bind_parameters vs = Raise InterfaceError.
Proof.
  induction vs as [|v vs IH]; intros Hfit Hex.
  - by apply Exists_nil in Hex.
  - apply Forall_cons in Hfit as [Hv Hfit]. simpl.
    destruct v as [| b | z | s | l | d]; simpl in *; try done.
    all: apply Exists_cons in Hex as [[] | Hex].
    all: try rewrite decide_True by done.
    all: by rewrite IH.
Qed.

(** A body that has the five fields gets past the validation of Create,
    whatever the values are. *)
Lemma api_add_user_present e e' user t :
  (∀ f, f ∈ create_fields → is_Some (user !! f)) →
  api_add_user e e' (Some user) t
  = match insert_user e e' user t with
    | (Ret d, t') =>
        (Ret (Response (PDict d) (if contains d "error" then 400 else 201)), t')
    | (Raise x, t') => (Raise x, t')
    end.
Proof.
  intros Hall. unfold api_add_user.
  assert (Hne : dict_truthy user = true).
  { apply dict_truthy_true. intros ->.
    destruct (Hall "name") as [v Hv]; [unfold create_fields; set_solver |].
    by rewrite lookup_empty in Hv. }
  apply forallb_contains_true in Hall. unfold create_fields in Hall.
  rewrite Hne, Hall. cbn [negb]. unfold mbind, M_bind.
  destruct (insert_user e e' user t) as [[d|x] t']; [| done].
  by destruct (contains d "error").
Qed.

(** X12.  A Create whose body holds an array or an object in a required
    field (and no integer beyond 64 bits) is answered 400 with
    ["Failed to insert user."], whatever the store holds and also when the
    email is taken; the store is left as it was. *)
Theorem unsupported_value_is_storage_failure e e' t user vn vm vp va vc :
  opens e = true →
  user !! "name" = Some vn → user !! "email" = Some vm → user !! "phone" = Some vp →
  user !! "address" = Some va → user !! "country" = Some vc →
  Forall fits [vn; vm; vp; va; vc] →
  Exists unsupported [vn; vm; vp; va; vc] →
  insert_user e e' user t = (Ret (error "Failed to insert user."), t) ∧
  api_add_user e e' (Some user) t
  = (Ret (Response (PDict (error "Failed to insert user.")) 400), t).
Proof.
  intros Ho Hn Hm Hp Ha Hc Hfit Hex.
  assert (Hins : insert_user e e' user t = (Ret (error "Failed to insert user."), t)).
  { unfold insert_user, connect_to_db, with_, try_except, mbind, M_bind, lift, subscript,
      execute.
    rewrite Ho, Hn, Hm, Hp, Ha, Hc. cbn [truthy].
    destruct (prepare_fault e) as [[]|]; try done.
    by rewrite (bind_unsupported _ Hfit Hex). }
  split; [done |].
  rewrite api_add_user_present, Hins; [done |].
  intros f Hf. unfold create_fields in Hf.
  repeat (apply elem_of_cons in Hf as [-> | Hf]); [eauto .. | by apply elem_of_nil in Hf].
Qed.

(** X13.  Create reads the five required fields of the body and nothing
    else: two bodies that agree on them, whatever else they hold (a
    [user_id], say), are treated alike by [insert_user], and by the handler
    when both are non-empty.  Update likewise reads its six fields only. *)
Theorem other_keys_ignored e e' user user' t :
  (∀ f, f ∈ create_fields → user !! f = user' !! f) →
  insert_user e e' user t = insert_user e e' user' t ∧
  (user ≠ ∅ → user' ≠ ∅ →
   api_add_user e e' (Some user) t = api_add_user e e' (Some user') t) ∧
  (user !! "user_id" = user' !! "user_id" →
   update_user e e' user t = update_user e e' user' t ∧
   (user ≠ ∅ → user' ≠ ∅ →
    api_update_user e e' (Some user) t = api_update_user e e' (Some user') t)).
Proof.
  intros Hsame.
  assert (Hn : user !! "name" = user' !! "name") by (apply Hsame; set_solver).
  assert (Hm : user !! "email" = user' !! "email") by (apply Hsame; set_solver).
  assert (Hp : user !! "phone" = user' !! "phone") by (apply Hsame; set_solver).
  assert (Ha : user !! "address" = user' !! "address") by (apply Hsame; set_solver).
  assert (Hc : user !! "country" = user' !! "country") by (apply Hsame; set_solver).
  assert (Hins : insert_user e e' user = insert_user e e' user').
  { unfold insert_user, subscript. by rewrite Hn, Hm, Hp, Ha, Hc. }
  split_and!; [by rewrite Hins | |].
  - intros Hne Hne'. apply dict_truthy_true in Hne, Hne'.
    unfold api_add_user, missing, contains. rewrite Hne, Hne', Hins. cbn [negb forallb].
    unfold contains. rewrite !filter_cons, filter_nil. by rewrite Hn, Hm, Hp, Ha, Hc.
  - intros Hk.
    assert (Hupd : update_user e e' user = update_user e e' user').
    { unfold update_user, subscript. by rewrite Hn, Hm, Hp, Ha, Hc, Hk. }
    split; [by rewrite Hupd |].
    intros Hne Hne'. apply dict_truthy_true in Hne, Hne'.
    unfold api_update_user, missing, contains. rewrite Hne, Hne', Hupd. cbn [negb forallb].
    unfold contains. rewrite !filter_cons, filter_nil. by rewrite Hn, Hm, Hp, Ha, Hc, Hk.
Qed.

(** ** Create and what follows it *)

(** X14.  When the insert succeeded and the re-read then fails, Create
    does not report it: with an engine failure in the second session it
    returns the empty record and is answered 201 with an empty object; with
    a database that cannot be opened any more it raises.  In both cases the
    row is stored. *)
Theorem create_reread_failure e' t user n m p a c :
  stored user "name" n → stored user "email" m → stored user "phone" p →
  stored user "address" a → stored user "country" c →
  m ∉ email <$> rows t →
  high_water t < max_rowid →
  let k := high_water t + 1 in
  let r := Row k n m p a c in
  let t' := Table (insert_row r (rows t)) k in
  r ∈ rows t' ∧
  (opens e' = true → engine_fails e' →
   insert_user healthy e' user t = (Ret ∅, t') ∧
   api_add_user healthy e' (Some user) t = (Ret (Response (PDict ∅) 201), t')) ∧
  (opens e' = false →
   insert_user healthy e' user t = (Raise TypeError, t') ∧
   api_add_user healthy e' (Some user) t = (Raise TypeError, t')).
Proof.
  intros Hn Hm Hp Ha Hc Hfresh Hroom k r t'.
  pose proof (high_water_nonneg t) as Hw.
  assert (Hk : is_key k) by (unfold is_key, min_int64, k; lia).
  destruct Hn as (pn & Hn & Hn'), Hm as (pm & Hm & Hm'), Hp as (pp & Hp & Hp'),
    Ha as (pa & Ha & Ha'), Hc as (pc & Hc & Hc').
  assert (Hins : insert_user healthy e' user t = get_user_by_id e' (PInt k) t').
  { rewrite (insert_user_healthy _ _ pn pm pp pa pc) by done.
    by rewrite (exec_insert_fresh pn pm pp pa pc n m p a c). }
  split_and!.
  - apply elem_of_insert_row. by left.
  - intros Ho Hf. rewrite (api_add_user_valid _ _ _ pn pm pp pa pc) by done.
    rewrite Hins, get_user_by_id_engine_failure by done. done.
  - intros Ho. rewrite (api_add_user_valid _ _ _ pn pm pp pa pc) by done.
    rewrite Hins. unfold get_user_by_id, connect_to_db. by rewrite Ho.
Qed.

(** X15.  On a store the program can be in, a Create that succeeds puts
    its row last: List afterwards returns what it returned before, followed
    by the new record. *)
Theorem create_appends_to_list t user n m p a c :
  reachable t →
  stored user "name" n → stored user "email" m → stored user "phone" p →
  stored user "address" a → stored user "country" c →
  m ∉ email <$> rows t →
  high_water t < max_rowid →
  let r := Row (high_water t + 1) n m p a c in
  let t' := Table (rows t ++ [r]) (high_water t + 1) in
  insert_user healthy healthy user t = (Ret (dict r), t') ∧
  get_users healthy t = (Ret (dict <$> rows t), t) ∧
  get_users healthy t' = (Ret ((dict <$> rows t) ++ [dict r]), t').
Proof.
  intros Hr Hn Hm Hp Ha Hc Hfresh Hroom r t'.
  pose proof (high_water_nonneg t) as Hw.
  assert (Hk : is_key (high_water t + 1)) by (unfold is_key, min_int64; lia).
  assert (Hlast : insert_row r (rows t) = rows t ++ [r]).
  { apply insert_row_last. intros k Hin%high_water_bound. simpl. lia. }
  destruct Hn as (pn & Hn & Hn'), Hm as (pm & Hm & Hm'), Hp as (pp & Hp & Hp'),
    Ha as (pa & Ha & Ha'), Hc as (pc & Hc & Hc').
  split_and!.
  - rewrite (insert_user_healthy _ _ pn pm pp pa pc) by done.
    rewrite (exec_insert_fresh pn pm pp pa pc n m p a c) by done.
    cbn [lastrowid]. rewrite get_user_by_id_healthy by done. cbn [rows].
    assert (Hfil : filter (λ r', key_matches text_as_integer (SInteger (user_id r)) r' = true)
                     (insert_row r (rows t)) = [r]).
    { apply filter_hit_insert_row. intros Hin%high_water_bound. simpl in Hin. lia. }
    unfold r in Hfil. cbn [user_id] in Hfil. rewrite Hfil. fold r. by rewrite Hlast.
  - done.
  - unfold get_users, connect_to_db, with_, try_except, mbind, M_bind. simpl.
    by rewrite fmap_app.
Qed.

Lemma without_insert_row r l :
  user_id r ∉ ids l → without (user_id r) (insert_row r l) = l.
Proof.
  unfold without, ids. induction l as [|r' l IH]; simpl; intros Hn.
  - by rewrite filter_cons_False by (intros H; by apply H).
  - assert (Hne : user_id r' ≠ user_id r).
    { intros Heq. apply Hn. rewrite Heq. apply elem_of_cons. by left. }
    assert (Hn' : user_id r ∉ user_id <$> l).
    { intros Hin. apply Hn. apply elem_of_cons. by right. }
    case_decide.
    + rewrite filter_cons_False by (intros H'; by apply H').
      rewrite filter_cons_True by done. f_equal.
      clear -Hn'. induction l as [|r0 l IH]; [done |].
      rewrite filter_cons_True.
      * f_equal. apply IH. intros Hin. apply Hn'. simpl. apply elem_of_cons. by right.
      * intros Heq. apply Hn'. simpl. rewrite Heq. apply elem_of_cons. by left.
    + rewrite filter_cons_True by done. f_equal. by apply IH.
Qed.

(** X16.  A Delete of the user a Create just made gives back the rows of
    before, but not the counter: the key is used up, and the next key to be
    handed out is the one after it. *)
Theorem create_then_delete t user n m p a c :
  stored user "name" n → stored user "email" m → stored user "phone" p →
  stored user "address" a → stored user "country" c →
  m ∉ email <$> rows t →
  high_water t < max_rowid →
  let k := high_water t + 1 in
  let t' := (insert_user healthy healthy user t).2 in
  let t'' := Table (rows t) k in
  k ∈ ids (rows t') ∧
  delete_user healthy k t' = (Ret (status_msg "User deleted successfully."), t'') ∧
  high_water t'' = k.
Proof.
  intros Hn Hm Hp Ha Hc Hfresh Hroom k t' t''.
  pose proof (high_water_nonneg t) as Hw.
  assert (Hk : is_key k) by (unfold is_key, min_int64, k; lia).
  assert (Hnew : k ∉ ids (rows t)).
  { intros Hin%high_water_bound. unfold k in Hin. lia. }
  destruct Hn as (pn & Hn & Hn'), Hm as (pm & Hm & Hm'), Hp as (pp & Hp & Hp'),
    Ha as (pa & Ha & Ha'), Hc as (pc & Hc & Hc').
  assert (Ht' : t' = Table (insert_row (Row k n m p a c) (rows t)) k).
  { unfold t'. rewrite (insert_user_healthy _ _ pn pm pp pa pc) by done.
    rewrite (exec_insert_fresh pn pm pp pa pc n m p a c) by done.
    apply get_user_by_id_frame. }
  rewrite Ht'. split_and!.
  - cbn [rows]. apply ids_insert_row. by left.
  - unfold delete_user, connect_to_db, with_, try_except, mbind, M_bind. simpl.
    rewrite (execute_healthy _ _ [SInteger k]) by by apply bind_key.
    cbn [exec]. unfold exec_delete. rewrite filter_miss_integer. cbn [rows seq].
    assert (Hwo : without k (insert_row (Row k n m p a c) (rows t)) = rows t)
      by by apply (without_insert_row (Row k n m p a c)).
    rewrite Hwo, length_insert_row. cbn [rowcount]. rewrite decide_False by lia. done.
  - unfold t'', high_water. cbn [rows seq].
    pose proof (max_id_nonneg (rows t)). unfold k, high_water. lia.
Qed.

(** ** What every store the program can be in satisfies *)

Lemma NoDup_email_insert_row r l :
  NoDup (email <$> l) → email r ∉ email <$> l → NoDup (email <$> insert_row r l).
Proof.
  induction l as [|r' l IH]; simpl; intros Hnd Hn.
  - apply NoDup_singleton.
  - case_decide.
    + rewrite fmap_cons. by apply NoDup_cons.
    + apply NoDup_cons in Hnd as [Hr' Hnd]. apply not_elem_of_cons in Hn as [Hne Hn].
      apply NoDup_cons. split; [| by apply IH].
      intros (x & Hx & Hin)%list_elem_of_fmap.
      apply elem_of_insert_row in Hin as [-> | Hin]; [done |].
      apply Hr'. apply list_elem_of_fmap. eauto.
Qed.

Lemma key_matches_same_key k r1 r2 :
  key_matches text_as_integer k r1 = true → key_matches text_as_integer k r2 = true →
  user_id r1 = user_id r2.
Proof.
  unfold key_matches. destruct k as [| z | s]; [done | |];
    rewrite !bool_decide_eq_true; congruence.
Qed.

Lemma NoDup_email_update k n m p a c (l : list row) :
  NoDup (ids l) → NoDup (email <$> l) →
  m ∉ email <$> filter (λ r, key_matches text_as_integer k r ≠ true) l →
  NoDup (email <$> ((λ r, if key_matches text_as_integer k r
                           then Row (user_id r) n m p a c else r) <$> l)).
Proof.
  unfold ids. induction l as [|r l IH]; [constructor |].
  rewrite !fmap_cons. intros [Hr Hids]%NoDup_cons [Hre Hems]%NoDup_cons Hm.
  destruct (key_matches text_as_integer k r) eqn:Hk.
  - rewrite filter_cons_False in Hm by (intros H; by apply H).
    assert (Hrest : Forall (λ r', key_matches text_as_integer k r' = false) l).
    { apply Forall_forall. intros r' Hr'.
      destruct (key_matches text_as_integer k r') eqn:Hk'; [| done].
      exfalso. apply Hr. rewrite (key_matches_same_key k r r' Hk Hk').
      apply list_elem_of_fmap. eauto. }
    assert (Hsame : ((λ r0, if key_matches text_as_integer k r0
                            then Row (user_id r0) n m p a c else r0) <$> l) = l).
    { clear -Hrest. induction Hrest as [|r' l Hr' _ IH]; [done |].
      rewrite fmap_cons, Hr'. by rewrite IH. }
    rewrite Hsame. rewrite filter_miss_unmatched in Hm by done.
    simpl. by apply NoDup_cons.
  - rewrite filter_cons_True in Hm by congruence.
    rewrite fmap_cons in Hm. apply not_elem_of_cons in Hm as [Hne Hm].
    apply NoDup_cons. split; [| by apply IH].
    intros (x & Hx & Hin)%list_elem_of_fmap.
    apply list_elem_of_fmap in Hin as (y & -> & Hy).
    destruct (key_matches text_as_integer k y); simpl in Hx; [done |].
    apply Hre. apply list_elem_of_fmap. eauto.
Qed.

Lemma exec_insert_consistent n m p a c t :
  consistent t → consistent (exec_insert n m p a c t).2.
Proof.
  intros (Hwf & Hem & Hpos & Hseq).
  pose proof (evolves_wf t _ Hwf (exec_insert_evolves n m p a c t)) as (Hwf' & _ & _).
  split; [done |]. clear Hwf'.
  pose proof (wf_high_water t Hwf) as Hhw. pose proof (high_water_nonneg t) as H0.
  unfold exec_insert. case_decide; [done |].
  repeat case_match; simpl; try done.
  split_and!.
  - apply NoDup_email_insert_row; [done |]. simpl.
    match goal with H : email_taken _ _ = false |- _ =>
      unfold email_taken in H; by apply bool_decide_eq_false in H end.
  - apply Forall_forall. intros k Hk. apply ids_insert_row in Hk as [-> | Hk].
    + simpl. lia.
    + rewrite Forall_forall in Hpos. by apply Hpos.
  - lia.
Qed.

Lemma exec_update_consistent n m p a c k t :
  consistent t → consistent (exec_update text_as_integer n m p a c k t).2.
Proof.
  intros (Hwf & Hem & Hpos & Hseq).
  pose proof (evolves_wf t _ Hwf (exec_update_evolves n m p a c k t)) as (Hwf' & _ & _).
  split; [done |]. clear Hwf'.
  unfold exec_update. repeat case_match; simpl; try done.
  split_and!.
  - apply NoDup_email_update; [by apply ascending_NoDup, Hwf | done |].
    match goal with H : email_taken _ _ = false |- _ =>
      unfold email_taken in H; by apply bool_decide_eq_false in H end.
  - rewrite ids_fmap_keep; [done |]. intros r'. by case_match.
  - done.
Qed.

Lemma after_consistent c t : consistent t → consistent (after c t).
Proof.
  intros Hc. destruct c as [e e' user | e e' user | e k | e v | e]; simpl.
  - destruct (insert_user_state e e' user t) as [-> | (n & m & p & a & c & ->)];
      [done | by apply exec_insert_consistent].
  - destruct (update_user_state e e' user t)
      as [-> | (n & m & p & a & c & k & v & _ & _ & ->)];
      [done | by apply exec_update_consistent].
  - destruct (delete_user_state e k t) as [-> | ->]; [done |].
    destruct Hc as (Hwf & Hem & Hpos & Hseq).
    pose proof (evolves_wf t _ Hwf (evolves_delete t (λ r, user_id r ≠ k) _))
      as (Hwf' & _ & _).
    split; [done |]. simpl. split_and!.
    + eapply sublist_NoDup; [exact Hem |]. apply fmap_sublist, sublist_filter.
    + apply Forall_forall. intros k' Hk'%ids_filter_subset.
      rewrite Forall_forall in Hpos. by apply Hpos.
    + done.
  - by rewrite get_user_by_id_frame.
  - by rewrite get_users_frame.
Qed.

Lemma reachable_consistent t : reachable t → consistent t.
Proof.
  induction 1 as [|c t _ IH]; [| by apply after_consistent].
  split_and!; [apply wf_empty | constructor | constructor | done].
Qed.

(** X17.  On every store the program can be in: no two rows have the same
    email; every [user_id] is at least 1 and at most 2^63 - 1, and none is
    above the counter. *)
Theorem emails_distinct_keys_in_range t :
  reachable t →
  NoDup (email <$> rows t) ∧
  (∀ k, k ∈ ids (rows t) → 1 <= k <= seq t ∧ is_key k) ∧
  seq t <= max_rowid.
Proof.
  intros (Hwf & Hem & Hpos & Hseq)%reachable_consistent. split_and!; [done | | done].
  intros k Hk. rewrite Forall_forall in Hpos. specialize (Hpos k Hk).
  pose proof (max_id_bound _ _ Hk). destruct Hwf as [_ Hmax].
  unfold is_key, min_int64. lia.
Qed.

Lemma head_filter_key (l : list row) r :
  NoDup (ids l) → r ∈ l → head (filter (λ r', user_id r' = user_id r) l) = Some r.
Proof.
  unfold ids. induction l as [|r0 l IH]; [by intros _ []%elem_of_nil |].
  rewrite fmap_cons. intros [Hr0 Hnd]%NoDup_cons [-> | Hin]%elem_of_cons.
  - by rewrite filter_cons_True.
  - rewrite filter_cons_False; [by apply IH |].
    intros Heq. apply Hr0. rewrite Heq. apply list_elem_of_fmap. eauto.
Qed.

(** X18.  On every store the program can be in, each row is retrievable
    by its [user_id]: GetByID returns that row's record, and GET by id is
    answered 200 with it, which is the record List returns at the row's
    place. *)
Theorem listed_rows_retrievable t i r :
  reachable t →
  rows t !! i = Some r →
  get_user_by_id healthy (PInt (user_id r)) t = (Ret (dict r), t) ∧
  api_get_user healthy (user_id r) t = (Ret (Response (PDict (dict r)) 200), t) ∧
  ∃ l, get_users healthy t = (Ret l, t) ∧ l !! i = Some (dict r).
Proof.
  intros Hr Hi.
  pose proof (reachable_consistent t Hr) as (Hwf & _ & Hpos & Hseq).
  assert (Hin : r ∈ rows t) by (eapply list_elem_of_lookup_2; eauto).
  assert (Hk : is_key (user_id r)).
  { assert (Hk : user_id r ∈ ids (rows t)) by (apply list_elem_of_fmap; eauto).
    rewrite Forall_forall in Hpos. specialize (Hpos _ Hk).
    pose proof (max_id_bound _ _ Hk). destruct Hwf as [_ Hmax].
    unfold is_key, min_int64. lia. }
  assert (Hget : get_user_by_id healthy (PInt (user_id r)) t = (Ret (dict r), t)).
  { rewrite get_user_by_id_healthy by done.
    rewrite filter_hit_integer, head_filter_key; [done | | done].
    apply ascending_NoDup, Hwf. }
  split_and!; [done | |].
  - unfold api_get_user, mbind, M_bind. rewrite Hget.
    assert (Ht : dict_truthy (dict r) = true).
    { apply dict_truthy_true. intros He.
      apply (f_equal (λ d : gmap string pyval, d !! "user_id")) in He.
      by rewrite dict_user_id, lookup_empty in He. }
    by rewrite Ht.
  - exists (dict <$> rows t). split; [done |]. by rewrite list_lookup_fmap, Hi.
Qed.

(** ** Listing *)

Lemma get_users_healthy t : get_users healthy t = (Ret (dict <$> rows t), t).
Proof. done. Qed.

(** Once the database is open List returns the rows, or the empty list
    when the engine fails: never an error. *)
Lemma get_users_opens e t :
  opens e = true →
  get_users e t = (Ret (dict <$> rows t), t) ∨ get_users e t = (Ret [], t).
Proof.
  intros He. unfold get_users, connect_to_db, with_, try_except, execute, mbind, M_bind.
  rewrite He. simpl.
  destruct (prepare_fault e) as [[]|]; try by right.
  destruct (step_fault e) as [[]|]; try by right.
  by left.
Qed.

(** After a Create the store holds the rows it held, or those followed by
    one more. *)
Lemma insert_user_rows e e' user t :
  rows (insert_user e e' user t).2 = rows t ∨
  ∃ r, rows (insert_user e e' user t).2 = rows t ++ [r].
Proof.
  destruct (insert_user_state e e' user t) as [-> | (n & m & p & a & c & ->)]; [by left |].
  destruct (exec_insert_cases n m p a c t) as [(x & -> & _) | (r & Hr & ->)]; simpl;
    [by left |].
  right. exists r. apply insert_row_last. intros k Hin%high_water_bound. lia.
Qed.

Lemma dict_user_ids (l : list row) :
  Forall2 (λ d k, d !! "user_id" = Some (PInt k)) (dict <$> l) (ids l).
Proof.
  unfold ids. induction l as [|r l IH]; simpl; constructor; [apply dict_user_id | done].
Qed.

(** C3, as amended.  On every store the program can be in, when the
    database opens and the engine answers, List returns one record for
    each row and nothing else, and the [user_id] values read off the
    records returned, from the first to the last, are strictly ascending.
    That is the order of insertion: after a Create, List returns what it
    returned before, or that followed by one new record.  Once the
    database is open List returns no error, whatever the engine does: the
    result is the list of the rows or the empty list, and on the empty
    store it is the empty list, answered 200. *)
Theorem list_all_ascending t :
  reachable t →
  ∃ l ks,
    get_users healthy t = (Ret l, t) ∧
    api_get_users healthy t = (Ret (Response (PList (PDict <$> l)) 200), t) ∧
    l = dict <$> rows t ∧
    Forall2 (λ d k, d !! "user_id" = Some (PInt k)) l ks ∧
    StronglySorted Z.lt ks ∧
    (∀ e e' user, ∃ l',
       get_users healthy (after (Create e e' user) t)
       = (Ret l', after (Create e e' user) t) ∧
       (l' = l ∨ ∃ d, l' = l ++ [d])) ∧
    (∀ e, opens e = true → get_users e t = (Ret l, t) ∨ get_users e t = (Ret [], t)) ∧
    (∀ e, opens e = true →
       get_users e empty_table = (Ret [], empty_table) ∧
       api_get_users e empty_table = (Ret (Response (PList []) 200), empty_table)).
Proof.
  intros Hr. exists (dict <$> rows t), (ids (rows t)). split_and!.
  - done.
  - done.
  - done.
  - apply dict_user_ids.
  - by destruct (reachable_wf t Hr).
  - intros e e' user. eexists. split; [apply get_users_healthy |].
    change (after (Create e e' user) t) with (insert_user e e' user t).2.
    destruct (insert_user_rows e e' user t) as [H | [r H]]; rewrite H; [by left |].
    right. exists (dict r). by rewrite fmap_app.
  - intros e He. by apply get_users_opens.
  - intros e He.
    assert (Hget : get_users e empty_table = (Ret [], empty_table))
      by by destruct (get_users_opens e empty_table He).
    split; [done |]. unfold api_get_users, mbind, M_bind. by rewrite Hget.
Qed.

(** ** Duplicate email *)

(** With the email taken the INSERT fails and changes nothing, whatever
    the other cells are and whether or not a key is left. *)
Lemma exec_insert_taken_frame n m p a c t E :
  text_affinity m = Some E →
  E ∈ email <$> rows t →
  ∃ x, exec_insert n m p a c t = (Raise x, t).
Proof.
  intros Hm HE. unfold exec_insert. case_decide; [eauto |]. rewrite Hm.
  destruct (text_affinity n), (text_affinity p), (text_affinity a), (text_affinity c);
    eauto.
  unfold email_taken. rewrite bool_decide_eq_true_2 by done. eauto.
Qed.

Lemma insert_user_taken_frame e e' user t E :
  stored user "email" E → E ∈ email <$> rows t → (insert_user e e' user t).2 = t.
Proof.
  intros (pm & (vm & Hvm & Hpm) & HmE) HE.
  unfold insert_user, connect_to_db, with_, try_except, mbind, M_bind, lift, subscript,
    raise.
  destruct (opens e); simpl; [| done].
  rewrite Hvm.
  repeat (match goal with |- context [user !! ?f] => destruct (user !! f) end;
          simpl; [| done]).
  match goal with |- context [execute e InsertUser ?ps t] =>
    destruct (execute_state e InsertUser ps t) as [Hx | (qs & Hb & Hx)]; rewrite Hx;
    [destruct (execute e InsertUser ps t).1 as [cur|x] | ] end; simpl.
  - pose proof (get_user_by_id_frame e' (PInt (lastrowid cur)) t) as Hf.
    destruct (get_user_by_id e' (PInt (lastrowid cur)) t) as [[d|y] t2]; simpl in *;
      subst t2; [done |].
    by destruct (is_IntegrityError y), (is_sqlite_Error y).
  - by destruct (is_IntegrityError x), (is_sqlite_Error x).
  - pose proof (bind_parameters_length _ _ Hb) as Hlen.
    destruct qs as [|qn [|qm [|qp [|qa [|qc [|]]]]]]; try done.
    apply bind_parameters_cons in Hb as [_ Hb].
    apply bind_parameters_cons in Hb as [Hqm _].
    rewrite Hpm in Hqm. injection Hqm as <-. simpl.
    destruct (exec_insert_taken_frame qn pm qp qa qc t E HmE HE) as [x ->]. simpl.
    by destruct (is_IntegrityError x), (is_sqlite_Error x).
Qed.

Lemma api_add_user_taken_frame e e' user t E :
  stored user "email" E → E ∈ email <$> rows t →
  (api_add_user e e' (Some user) t).2 = t.
Proof.
  intros Hm HE. unfold api_add_user.
  destruct (negb (dict_truthy user)); [done |].
  destruct (negb (forallb _ _)); [done |].
  unfold mbind, M_bind.
  pose proof (insert_user_taken_frame e e' user t E Hm HE) as Hf.
  destruct (insert_user e e' user t) as [[d|x] t']; simpl in *; subst t'; [| done].
  by destruct (contains d "error").
Qed.

(** C4, as amended.  On every store with a row of email [E], a Create
    whose body gives email [E] leaves the store exactly as it was (the same
    rows, hence the same number of rows), whatever the other fields hold
    and whatever the environment does.  When the other four fields hold
    values that can be bound, on a store that answers and has keys left,
    the Create is answered 400 with ["Email must be unique."]. *)
Theorem duplicate_email_rejected e e' t user E :
  stored user "email" E →
  E ∈ email <$> rows t →
  (insert_user e e' user t).2 = t ∧
  (api_add_user e e' (Some user) t).2 = t ∧
  (∀ n p a c,
     bound user "name" n → bound user "phone" p →
     bound user "address" a → bound user "country" c →
     high_water t < max_rowid →
     insert_user healthy e' user t = (Ret (error "Email must be unique."), t) ∧
     api_add_user healthy e' (Some user) t
     = (Ret (Response (PDict (error "Email must be unique.")) 400), t)).
Proof.
  intros Hst HE. split_and!.
  - by apply (insert_user_taken_frame _ _ _ _ E).
  - by apply (api_add_user_taken_frame _ _ _ _ E).
  - intros n p a c Hn Hp Ha Hc Hroom.
    destruct Hst as (m & Hm & HmE).
    assert (Hins : insert_user healthy e' user t
                   = (Ret (error "Email must be unique."), t)).
    { rewrite (insert_user_healthy _ _ n m p a c) by done.
      destruct (exec_insert_taken n m p a c t E) as [x ->]; done. }
    split; [done |].
    rewrite (api_add_user_valid _ _ _ n m p a c) by done.
    by rewrite Hins.
Qed.

(** ** Probing for a key no row has *)

Lemma api_delete_user_frame e k t :
  k ∉ ids (rows t) → (api_delete_user e k t).2 = t.
Proof.
  intros Hn. unfold api_delete_user, mbind, M_bind.
  pose proof (delete_user_frame e k t Hn) as Hf.
  destruct (delete_user e k t) as [[d|x] t']; simpl in *; subst t'; [| done].
  by destruct (get_is d "status" "User deleted successfully."),
       (get_is d "status" "User not found.").
Qed.

(** C8, as amended.  For every store and every key no row has, the store
    after GetByID and after Delete, called directly or through their
    handlers, is the store before, whatever the key and whatever the
    environment does.  When the key is within the range of the store's
    64-bit INTEGER and the store answers, GetByID returns the empty record
    (answered 404) and Delete returns ["User not found."] (answered
    404). *)
Theorem probing_absent_id t k :
  k ∉ ids (rows t) →
  (∀ e, (get_user_by_id e (PInt k) t).2 = t ∧ (api_get_user e k t).2 = t) ∧
  (∀ e, (delete_user e k t).2 = t ∧ (api_delete_user e k t).2 = t) ∧
  (is_key k →
   get_user_by_id healthy (PInt k) t = (Ret ∅, t) ∧
   delete_user healthy k t = (Ret (status_msg "User not found."), t) ∧
   api_get_user healthy k t
   = (Ret (Response (PDict (error "User not found.")) 404), t) ∧
   api_delete_user healthy k t
   = (Ret (Response (PDict (status_msg "User not found.")) 404), t)).
Proof.
  intros Hn. split_and!.
  - intros e. split; [apply get_user_by_id_frame | apply reads_never_write].
  - intros e. split; [by apply delete_user_frame | by apply api_delete_user_frame].
  - intros Hk. split_and!.
    + by apply get_user_by_id_absent.
    + by apply delete_user_absent.
    + unfold api_get_user, mbind, M_bind. by rewrite get_user_by_id_absent.
    + unfold api_delete_user, mbind, M_bind. by rewrite delete_user_absent.
Qed.

End App.

(** ** The program at work *)

(** The first scenario of the specification: Alice on the empty store. *)
Lemma create_then_get_by_id_alice :
  insert_user no_text_key healthy healthy alice empty_table
  = (Ret (dict alice_row), alice_table) ∧
  api_add_user no_text_key healthy healthy (Some alice) empty_table
  = (Ret (Response (PDict (dict alice_row)) 201), alice_table) ∧
  dict alice_row !! "user_id" = Some (PInt 1) ∧
  get_user_by_id no_text_key healthy (PInt 1) alice_table
  = (Ret (dict alice_row), alice_table) ∧
  ∀ f s, f ∈ create_fields → alice !! f = Some (PStr s) →
         dict alice_row !! f = Some (PStr s).
Proof.
  apply (create_then_get_by_id no_text_key empty_table alice
           "Alice" "a@x.com" "123" "1 Main St" "US");
    [by apply stored_text .. | | reflexivity].
  intros H. inversion H.
Defined.

(** C1 as stated fails: a body can hold the five fields, with an email no
    row has, and still be refused.  With a JSON [null] for the name the
    insert meets NOT NULL; Create answers 400 and stores nothing. *)
Lemma create_null_name_refused :
  (∀ f, f ∈ create_fields → contains nameless f = true) ∧
  nameless !! "email" = Some (PStr "a@x.com") ∧
  ("a@x.com" ∉ email <$> rows empty_table) ∧
  insert_user no_text_key healthy healthy nameless empty_table
  = (Ret (error "Email must be unique."), empty_table) ∧
  api_add_user no_text_key healthy healthy (Some nameless) empty_table
  = (Ret (Response (PDict (error "Email must be unique.")) 400), empty_table).
Proof.
  split_and!; try reflexivity.
  - intros f Hf. unfold create_fields in Hf.
    repeat (apply elem_of_cons in Hf as [-> | Hf]); try reflexivity.
    by apply elem_of_nil in Hf.
  - intros H. inversion H.
Qed.

(** Bob, who sends a name only. *)
Lemma missing_fields_of_bob :
  ∃ ms, complete_ordered_missing create_fields bob ms ∧
    api_add_user no_text_key healthy healthy (Some bob) empty_table
    = (Ret (Response (PDict (error ("Missing fields: " +:+ String.concat ", " ms))) 400),
       empty_table).
Proof.
  apply (missing_fields_listed_in_full no_text_key healthy healthy empty_table bob).
  - intros H. apply (f_equal (λ d : gmap string pyval, d !! "name")) in H. discriminate H.
  - exists "email". split; [| reflexivity].
    unfold create_fields. apply elem_of_cons. right. apply elem_of_cons. by left.
Defined.

(** Alice and Bob, created one after the other, are listed in that order. *)
Lemma list_all_ascending_two_users :
  ∃ l ks,
    get_users no_text_key healthy two_users = (Ret l, two_users) ∧
    api_get_users no_text_key healthy two_users
    = (Ret (Response (PList (PDict <$> l)) 200), two_users) ∧
    l = dict <$> rows two_users ∧
    Forall2 (λ d k, d !! "user_id" = Some (PInt k)) l ks ∧
    StronglySorted Z.lt ks ∧
    (∀ e e' user, ∃ l',
       get_users no_text_key healthy (after no_text_key (Create e e' user) two_users)
       = (Ret l', after no_text_key (Create e e' user) two_users) ∧
       (l' = l ∨ ∃ d, l' = l ++ [d])) ∧
    (∀ e, opens e = true →
          get_users no_text_key e two_users = (Ret l, two_users) ∨
          get_users no_text_key e two_users = (Ret [], two_users)) ∧
    (∀ e, opens e = true →
          get_users no_text_key e empty_table = (Ret [], empty_table) ∧
          api_get_users no_text_key e empty_table
          = (Ret (Response (PList []) 200), empty_table)).
Proof.
  apply (list_all_ascending no_text_key two_users).
  exact (reachable_after no_text_key (Create healthy healthy bob_full) _
           (reachable_after no_text_key (Create healthy healthy alice) empty_table
              (reachable_empty no_text_key))).
Defined.

(** C3 as stated fails.  When the engine fails on the query List returns
    the empty list although the store holds two rows; and when the database
    cannot be opened List raises, on the empty store as on any other, and
    no answer is made. *)
Lemma list_emptied_or_raised :
  length (rows two_users) = 2%nat ∧
  get_users no_text_key failing two_users = (Ret [], two_users) ∧
  api_get_users no_text_key failing two_users
  = (Ret (Response (PList []) 200), two_users) ∧
  rows empty_table = [] ∧
  get_users no_text_key unreachable empty_table = (Raise TypeError, empty_table) ∧
  api_get_users no_text_key unreachable empty_table = (Raise TypeError, empty_table).
Proof. split_and!; reflexivity. Qed.

(** The second scenario: the same email under another name. *)
Lemma duplicate_email_rejected_alicia :
  (insert_user no_text_key healthy healthy alicia alice_table).2 = alice_table ∧
  (api_add_user no_text_key healthy healthy (Some alicia) alice_table).2 = alice_table ∧
  insert_user no_text_key healthy healthy alicia alice_table
  = (Ret (error "Email must be unique."), alice_table) ∧
  api_add_user no_text_key healthy healthy (Some alicia) alice_table
  = (Ret (Response (PDict (error "Email must be unique.")) 400), alice_table).
Proof.
  assert (Hn : bound alicia "name" (SText "Alicia")) by by exists (PStr "Alicia").
  assert (Hp : bound alicia "phone" (SText "123")) by by exists (PStr "123").
  assert (Ha : bound alicia "address" (SText "1 Main St")) by by exists (PStr "1 Main St").
  assert (Hc : bound alicia "country" (SText "US")) by by exists (PStr "US").
  assert (Hm : stored alicia "email" "a@x.com") by by apply stored_text.
  assert (HE : "a@x.com" ∈ email <$> rows alice_table).
  { simpl. apply elem_of_cons. by left. }
  destruct (duplicate_email_rejected no_text_key healthy healthy alice_table alicia
              "a@x.com" Hm HE) as (Hrepo & Hapi & Hout).
  split_and!; [exact Hrepo | exact Hapi | ..];
    apply (Hout (SText "Alicia") (SText "123") (SText "1 Main St") (SText "US") Hn Hp Ha Hc);
    reflexivity.
Defined.

(** C4 as stated fails.  The store holds Alice's email; a body with that
    email and an array for the name passes validation, the array cannot be
    bound, and Create answers 400 with ["Failed to insert user."]; with an
    integer beyond 64 bits for the name Create raises and answers
    nothing. *)
Lemma duplicate_email_unbound_name :
  "a@x.com" ∈ email <$> rows alice_table ∧
  (∀ f, f ∈ create_fields → contains listed f = true) ∧
  listed !! "email" = Some (PStr "a@x.com") ∧
  insert_user no_text_key healthy healthy listed alice_table
  = (Ret (error "Failed to insert user."), alice_table) ∧
  api_add_user no_text_key healthy healthy (Some listed) alice_table
  = (Ret (Response (PDict (error "Failed to insert user.")) 400), alice_table) ∧
  (<["name" := PInt (2 ^ 63)]> alice) !! "email" = Some (PStr "a@x.com") ∧
  api_add_user no_text_key healthy healthy (Some (<["name" := PInt (2 ^ 63)]> alice))
    alice_table
  = (Raise OverflowError, alice_table).
Proof.
  split_and!; try reflexivity.
  - simpl. apply elem_of_cons. by left.
  - intros f Hf. unfold create_fields in Hf.
    repeat (apply elem_of_cons in Hf as [-> | Hf]); try reflexivity.
    by apply elem_of_nil in Hf.
Qed.

(** No user 7 in the store that holds Alice. *)
Lemma update_not_found_400_get_404_alice :
  api_update_user no_text_key healthy healthy (Some alice_as_7) alice_table
  = (Ret (Response (PDict (error "User not found.")) 400), alice_table) ∧
  api_get_user no_text_key healthy 7 alice_table
  = (Ret (Response (PDict (error "User not found.")) 404), alice_table).
Proof.
  apply (update_not_found_400_get_404 no_text_key healthy alice_table alice_as_7
           (SText "Alice") (SText "a@x.com") (SText "123") (SText "1 Main St") (SText "US")
           (SInteger 7) 7).
  - by exists (PStr "Alice").
  - by exists (PStr "a@x.com").
  - by exists (PStr "123").
  - by exists (PStr "1 Main St").
  - by exists (PStr "US").
  - by exists (PInt 7).
  - repeat constructor.
  - unfold is_key, min_int64, max_rowid. lia.
  - simpl. intros H. apply list_elem_of_singleton in H. discriminate H.
Defined.

(** C7 as stated fails.  No row of the store is under key 7 or under key
    [2 ^ 63].  An Update for user 7 with an array for the name is answered
    400 with ["Failed to update user."]; an Update and a GET for user
    [2 ^ 63] raise when the key is bound, and no answer is made. *)
Lemma not_found_unbound_or_out_of_range :
  (7 ∉ ids (rows alice_table)) ∧
  (2 ^ 63 ∉ ids (rows alice_table)) ∧
  (∀ f, f ∈ update_fields → contains (<["name" := PList []]> alice_as_7) f = true) ∧
  (<["name" := PList []]> alice_as_7) !! "user_id" = Some (PInt 7) ∧
  api_update_user no_text_key healthy healthy (Some (<["name" := PList []]> alice_as_7))
    alice_table
  = (Ret (Response (PDict (error "Failed to update user.")) 400), alice_table) ∧
  api_update_user no_text_key healthy healthy (Some (<["user_id" := PInt (2 ^ 63)]> alice))
    alice_table
  = (Raise OverflowError, alice_table) ∧
  api_get_user no_text_key healthy (2 ^ 63) alice_table
  = (Raise OverflowError, alice_table).
Proof.
  split_and!; try reflexivity.
  - simpl. intros H. apply list_elem_of_singleton in H. discriminate H.
  - simpl. intros H. apply list_elem_of_singleton in H. discriminate H.
  - intros f Hf. unfold update_fields, create_fields in Hf.
    repeat (apply elem_of_cons in Hf as [-> | Hf]); try reflexivity.
    by apply elem_of_nil in Hf.
Qed.

(** The third scenario: no user 999. *)
Lemma probing_absent_id_999 :
  (∀ e, (get_user_by_id no_text_key e (PInt 999) alice_table).2 = alice_table ∧
        (api_get_user no_text_key e 999 alice_table).2 = alice_table) ∧
  (∀ e, (delete_user no_text_key e 999 alice_table).2 = alice_table ∧
        (api_delete_user no_text_key e 999 alice_table).2 = alice_table) ∧
  get_user_by_id no_text_key healthy (PInt 999) alice_table = (Ret ∅, alice_table) ∧
  delete_user no_text_key healthy 999 alice_table
  = (Ret (status_msg "User not found."), alice_table) ∧
  api_get_user no_text_key healthy 999 alice_table
  = (Ret (Response (PDict (error "User not found.")) 404), alice_table) ∧
  api_delete_user no_text_key healthy 999 alice_table
  = (Ret (Response (PDict (status_msg "User not found.")) 404), alice_table).
Proof.
  destruct (probing_absent_id no_text_key alice_table 999) as (Hget & Hdel & Hout).
  - simpl. intros H. apply list_elem_of_singleton in H. discriminate H.
  - split_and!; [exact Hget | exact Hdel | apply Hout ..];
      unfold is_key, min_int64, max_rowid; lia.
Defined.

(** C8 as stated fails.  No row of the store is under key [2 ^ 63], and
    neither GetByID nor Delete returns the not-found outcome for it: both
    raise when the key is bound. *)
Lemma probing_beyond_64_bits_raises :
  (2 ^ 63 ∉ ids (rows alice_table)) ∧
  get_user_by_id no_text_key healthy (PInt (2 ^ 63)) alice_table
  = (Raise OverflowError, alice_table) ∧
  delete_user no_text_key healthy (2 ^ 63) alice_table
  = (Raise OverflowError, alice_table) ∧
  api_get_user no_text_key healthy (2 ^ 63) alice_table
  = (Raise OverflowError, alice_table) ∧
  api_delete_user no_text_key healthy (2 ^ 63) alice_table
  = (Raise OverflowError, alice_table).
Proof.
  split_and!; try reflexivity.
  simpl. intros H. apply list_elem_of_singleton in H. discriminate H.
Qed.

(** C5, where the program departs from it.  On the empty store no email
    can be taken; a body with a JSON [null] for the name makes the insert
    fail on NOT NULL, an [IntegrityError] like the one of UNIQUE, and
    Create reports ["Email must be unique."]. *)
Theorem null_name_reported_as_duplicate_email :
  (email <$> rows empty_table) = [] ∧
  execute no_text_key healthy InsertUser
    [PNone; PStr "a@x.com"; PStr "123"; PStr "1 Main St"; PStr "US"] empty_table
  = (Raise (IntegrityError (NotNull "name")), empty_table) ∧
  insert_user no_text_key healthy healthy nameless empty_table
  = (Ret (error "Email must be unique."), empty_table) ∧
  api_add_user no_text_key healthy healthy (Some nameless) empty_table
  = (Ret (Response (PDict (error "Email must be unique.")) 400), empty_table).
Proof. split_and!; reflexivity. Qed.

(** C10, where the program departs from it.  When the engine fails on the
    statement, GET by id answers 404 as it does for a key no row has.  When
    the database cannot be opened, [connect_to_db] returns [None], the
    [with] statement raises on it, and no answer is made: the branch that
    would return the empty record is never reached. *)
Theorem get_by_id_unreachable_database_raises :
  api_get_user no_text_key failing 1 alice_table
  = (Ret (Response (PDict (error "User not found.")) 404), alice_table) ∧
  api_get_user no_text_key healthy 999 alice_table
  = (Ret (Response (PDict (error "User not found.")) 404), alice_table) ∧
  get_user_by_id no_text_key unreachable (PInt 1) alice_table
  = (Raise TypeError, alice_table) ∧
  api_get_user no_text_key unreachable 1 alice_table = (Raise TypeError, alice_table).
Proof. split_and!; reflexivity. Qed.

(** A key is not handed out twice: Alice, created again after her row was
    deleted, is user 2. *)
Lemma come_and_go_new_key :
  history no_text_key come_and_go empty_table
  = [empty_table; alice_table; Table [] 1;
     Table [Row 2 "Alice" "a@x.com" "123" "1 Main St" "US"] 2] ∧
  1 < 2.
Proof.
  split; [reflexivity |].
  destruct (user_ids_increase_never_reused no_text_key come_and_go) as (_ & Hnew & _).
  apply (Hnew 1%nat 2%nat alice_table (Table [] 1)
           (Table [Row 2 "Alice" "a@x.com" "123" "1 Main St" "US"] 2));
    [lia | reflexivity | reflexivity | reflexivity | | | ].
  - simpl. apply elem_of_cons. by left.
  - simpl. apply not_elem_of_nil.
  - simpl. apply elem_of_cons. by left.
Defined.

(** ** The scenarios of the specification *)

Example scenario_update :
  api_update_user no_text_key healthy healthy (Some alice_b) alice_table
  = (Ret (Response (PDict (dict alice_b_row)) 200), Table [alice_b_row] 1).
Proof. reflexivity. Qed.

Example scenario_delete :
  api_delete_user no_text_key healthy 1 alice_table
  = (Ret (Response (PDict (status_msg "User deleted successfully.")) 200), Table [] 1) ∧
  api_get_user no_text_key healthy 1 (Table [] 1)
  = (Ret (Response (PDict (error "User not found.")) 404), Table [] 1).
Proof. split; reflexivity. Qed.

Example scenario_missing :
  api_add_user no_text_key healthy healthy (Some bob) empty_table
  = (Ret (Response (PDict (error "Missing fields: email, phone, address, country")) 400),
     empty_table).
Proof. reflexivity. Qed.

(** A number is stored as its text, and read back as text. *)
Example number_stored_as_text :
  api_add_user no_text_key healthy healthy (Some numbered) empty_table
  = (Ret (Response (PDict (dict (Row 1 "5" "a@x.com" "123" "1 Main St" "US"))) 201),
     Table [Row 1 "5" "a@x.com" "123" "1 Main St" "US"] 1).
Proof. reflexivity. Qed.

(** ** The further properties at work *)

(** The fourth scenario of the specification: Alice becomes Alice B. *)
Lemma update_then_get_by_id_alice_b :
  update_user no_text_key healthy healthy alice_b alice_table
  = (Ret (dict alice_b_row), Table [alice_b_row] 1) ∧
  api_update_user no_text_key healthy healthy (Some alice_b) alice_table
  = (Ret (Response (PDict (dict alice_b_row)) 200), Table [alice_b_row] 1) ∧
  get_user_by_id no_text_key healthy (PInt 1) (Table [alice_b_row] 1)
  = (Ret (dict alice_b_row), Table [alice_b_row] 1) ∧
  ∀ f s, f ∈ create_fields → alice_b !! f = Some (PStr s) →
         dict alice_b_row !! f = Some (PStr s).
Proof.
  apply (update_then_get_by_id no_text_key alice_table alice_b 1
           "Alice B" "a@x.com" "123" "1 Main St" "US").
  - reflexivity.
  - unfold is_key, min_int64, max_rowid. lia.
  - simpl. apply elem_of_cons. by left.
  - by apply stored_text.
  - by apply stored_text.
  - by apply stored_text.
  - by apply stored_text.
  - by apply stored_text.
  - intros r Hr _. simpl in Hr. apply list_elem_of_singleton in Hr. by subst.
Defined.

(** Bob may not take Alice's email. *)
Lemma update_constraint_rejected_bob :
  update_user no_text_key healthy healthy bob_as_alice two_users
  = (Ret (error "Email must be unique."), two_users) ∧
  api_update_user no_text_key healthy healthy (Some bob_as_alice) two_users
  = (Ret (Response (PDict (error "Email must be unique.")) 400), two_users).
Proof.
  apply (update_constraint_rejected no_text_key healthy two_users bob_as_alice 2
           (SText "Bob") (SText "a@x.com") (SText "456") (SText "2 Side St") (SText "LB")).
  - reflexivity.
  - unfold is_key, min_int64, max_rowid. lia.
  - simpl. apply elem_of_cons. right. apply elem_of_cons. by left.
  - by exists (PStr "Bob").
  - by exists (PStr "a@x.com").
  - by exists (PStr "456").
  - by exists (PStr "2 Side St").
  - by exists (PStr "LB").
  - left. exists "a@x.com", (Row 1 "Alice" "a@x.com" "123" "1 Main St" "US").
    split_and!; [reflexivity | | reflexivity | discriminate].
    simpl. apply elem_of_cons. by left.
Defined.

(** The fifth scenario: Alice is deleted. *)
Lemma delete_then_not_found_alice :
  delete_user no_text_key healthy 1 alice_table
  = (Ret (status_msg "User deleted successfully."), Table [] 1) ∧
  api_delete_user no_text_key healthy 1 alice_table
  = (Ret (Response (PDict (status_msg "User deleted successfully.")) 200), Table [] 1) ∧
  api_get_user no_text_key healthy 1 (Table [] 1)
  = (Ret (Response (PDict (error "User not found.")) 404), Table [] 1) ∧
  api_delete_user no_text_key healthy 1 (Table [] 1)
  = (Ret (Response (PDict (status_msg "User not found.")) 404), Table [] 1).
Proof.
  apply (delete_then_not_found no_text_key alice_table 1).
  - unfold is_key, min_int64, max_rowid. lia.
  - simpl. apply elem_of_cons. by left.
Defined.

(** The engine fails on every statement. *)
Lemma storage_failure_answers_400_alice_b :
  api_add_user no_text_key failing healthy (Some alice_b) alice_table
  = (Ret (Response (PDict (error "Failed to insert user.")) 400), alice_table) ∧
  api_update_user no_text_key failing healthy (Some alice_b) alice_table
  = (Ret (Response (PDict (error "Failed to update user.")) 400), alice_table) ∧
  api_delete_user no_text_key failing 1 alice_table
  = (Ret (Response (PDict (status_msg "Failed to delete user.")) 400), alice_table).
Proof.
  apply (storage_failure_answers_400 no_text_key failing healthy alice_table alice_b
           (SText "Alice B") (SText "a@x.com") (SText "123") (SText "1 Main St")
           (SText "US") (SInteger 1) 1).
  - reflexivity.
  - right. by exists Unavailable.
  - by exists (PStr "Alice B").
  - by exists (PStr "a@x.com").
  - by exists (PStr "123").
  - by exists (PStr "1 Main St").
  - by exists (PStr "US").
  - by exists (PInt 1).
  - unfold is_key, min_int64, max_rowid. lia.
Defined.

Lemma list_failure_looks_empty_alice :
  get_users no_text_key failing alice_table = (Ret [], alice_table) ∧
  api_get_users no_text_key failing alice_table
  = (Ret (Response (PList []) 200), alice_table) ∧
  api_get_users no_text_key healthy empty_table
  = (Ret (Response (PList []) 200), empty_table).
Proof.
  apply (list_failure_looks_empty no_text_key failing alice_table).
  - reflexivity.
  - right. by exists Unavailable.
Defined.

Lemma unreachable_database_no_response_alice_b :
  api_get_users no_text_key unreachable alice_table = (Raise TypeError, alice_table) ∧
  api_get_user no_text_key unreachable 1 alice_table = (Raise TypeError, alice_table) ∧
  api_delete_user no_text_key unreachable 1 alice_table = (Raise TypeError, alice_table) ∧
  api_add_user no_text_key unreachable healthy (Some alice_b) alice_table
  = (Raise TypeError, alice_table) ∧
  api_update_user no_text_key unreachable healthy (Some alice_b) alice_table
  = (Raise TypeError, alice_table).
Proof.
  apply (unreachable_database_no_response no_text_key unreachable healthy alice_b 1
           alice_table).
  - reflexivity.
  - intros f Hf. unfold update_fields, create_fields in Hf.
    repeat (apply elem_of_cons in Hf as [-> | Hf]); [by eexists .. |].
    by apply elem_of_nil in Hf.
Defined.

Lemma key_out_of_range_raises_2_63 :
  api_get_user no_text_key healthy (2 ^ 63) alice_table
  = (Raise OverflowError, alice_table) ∧
  api_delete_user no_text_key healthy (2 ^ 63) alice_table
  = (Raise OverflowError, alice_table).
Proof.
  apply (key_out_of_range_raises no_text_key healthy (2 ^ 63) alice_table).
  - reflexivity.
  - reflexivity.
  - unfold is_key, min_int64, max_rowid. lia.
Defined.

(** Bob's body, handed to the repository as it is. *)
Lemma repository_missing_key_bob :
  insert_user no_text_key healthy healthy bob empty_table
  = (Raise (KeyError "email"), empty_table) ∧
  update_user no_text_key healthy healthy bob empty_table
  = (Raise (KeyError "email"), empty_table).
Proof.
  destruct (repository_missing_key no_text_key healthy healthy bob empty_table
              "email" ["phone"; "address"; "country"] eq_refl) as [Hi _].
  destruct (repository_missing_key no_text_key healthy healthy bob empty_table
              "email" ["phone"; "address"; "country"; "user_id"] eq_refl) as [_ Hu].
  split; [apply Hi | apply Hu]; reflexivity.
Defined.

Lemma unsupported_value_is_storage_failure_listed :
  insert_user no_text_key healthy healthy listed alice_table
  = (Ret (error "Failed to insert user."), alice_table) ∧
  api_add_user no_text_key healthy healthy (Some listed) alice_table
  = (Ret (Response (PDict (error "Failed to insert user.")) 400), alice_table).
Proof.
  apply (unsupported_value_is_storage_failure no_text_key healthy healthy alice_table listed
           (PList []) (PStr "a@x.com") (PStr "123") (PStr "1 Main St") (PStr "US"));
    try reflexivity.
  - repeat constructor.
  - by left.
Defined.

Lemma create_reread_failure_alice :
  alice_row ∈ rows alice_table ∧
  (opens failing = true → engine_fails failing →
   insert_user no_text_key healthy failing alice empty_table = (Ret ∅, alice_table) ∧
   api_add_user no_text_key healthy failing (Some alice) empty_table
   = (Ret (Response (PDict ∅) 201), alice_table)) ∧
  (opens failing = false →
   insert_user no_text_key healthy failing alice empty_table
   = (Raise TypeError, alice_table) ∧
   api_add_user no_text_key healthy failing (Some alice) empty_table
   = (Raise TypeError, alice_table)).
Proof.
  apply (create_reread_failure no_text_key failing empty_table alice
           "Alice" "a@x.com" "123" "1 Main St" "US");
    [by apply stored_text .. | | reflexivity].
  intros H. inversion H.
Defined.

Lemma create_appends_to_list_bob :
  insert_user no_text_key healthy healthy bob_full alice_table
  = (Ret (dict bob_row), two_users) ∧
  get_users no_text_key healthy alice_table = (Ret [dict alice_row], alice_table) ∧
  get_users no_text_key healthy two_users
  = (Ret ([dict alice_row] ++ [dict bob_row]), two_users).
Proof.
  apply (create_appends_to_list no_text_key alice_table bob_full
           "Bob" "b@x.com" "456" "2 Side St" "LB").
  - exact (reachable_after no_text_key (Create healthy healthy alice) empty_table
             (reachable_empty no_text_key)).
  - by apply stored_text.
  - by apply stored_text.
  - by apply stored_text.
  - by apply stored_text.
  - by apply stored_text.
  - simpl. intros H. apply list_elem_of_singleton in H. discriminate H.
  - reflexivity.
Defined.

Lemma create_then_delete_alice :
  1 ∈ ids (rows alice_table) ∧
  delete_user no_text_key healthy 1 alice_table
  = (Ret (status_msg "User deleted successfully."), Table [] 1) ∧
  high_water (Table [] 1) = 1.
Proof.
  apply (create_then_delete no_text_key empty_table alice
           "Alice" "a@x.com" "123" "1 Main St" "US");
    [by apply stored_text .. | | reflexivity].
  intros H. inversion H.
Defined.

Lemma emails_distinct_keys_in_range_two_users :
  NoDup (email <$> rows two_users) ∧
  (∀ k, k ∈ ids (rows two_users) → 1 <= k <= seq two_users ∧ is_key k) ∧
  seq two_users <= max_rowid.
Proof.
  apply (emails_distinct_keys_in_range no_text_key two_users).
  exact (reachable_after no_text_key (Create healthy healthy bob_full) _
           (reachable_after no_text_key (Create healthy healthy alice) empty_table
              (reachable_empty no_text_key))).
Defined.

Lemma listed_rows_retrievable_bob :
  get_user_by_id no_text_key healthy (PInt 2) two_users = (Ret (dict bob_row), two_users) ∧
  api_get_user no_text_key healthy 2 two_users
  = (Ret (Response (PDict (dict bob_row)) 200), two_users) ∧
  ∃ l, get_users no_text_key healthy two_users = (Ret l, two_users) ∧
       l !! 1%nat = Some (dict bob_row).
Proof.
  apply (listed_rows_retrievable no_text_key two_users 1%nat bob_row).
  - exact (reachable_after no_text_key (Create healthy healthy bob_full) _
             (reachable_after no_text_key (Create healthy healthy alice) empty_table
                (reachable_empty no_text_key))).
  - reflexivity.
Defined.

(** A key neither Create nor Update asks for makes no difference. *)
Lemma other_keys_ignored_role :
  insert_user no_text_key healthy healthy (<["role" := PStr "admin"]> alice_b) alice_table
  = insert_user no_text_key healthy healthy alice_b alice_table ∧
  (<["role" := PStr "admin"]> alice_b ≠ ∅ → alice_b ≠ ∅ →
   api_add_user no_text_key healthy healthy (Some (<["role" := PStr "admin"]> alice_b))
     alice_table
   = api_add_user no_text_key healthy healthy (Some alice_b) alice_table) ∧
  ((<["role" := PStr "admin"]> alice_b) !! "user_id" = alice_b !! "user_id" →
   update_user no_text_key healthy healthy (<["role" := PStr "admin"]> alice_b) alice_table
   = update_user no_text_key healthy healthy alice_b alice_table ∧
   (<["role" := PStr "admin"]> alice_b ≠ ∅ → alice_b ≠ ∅ →
    api_update_user no_text_key healthy healthy (Some (<["role" := PStr "admin"]> alice_b))
      alice_table
    = api_update_user no_text_key healthy healthy (Some alice_b) alice_table)).
Proof.
  apply (other_keys_ignored no_text_key healthy healthy
           (<["role" := PStr "admin"]> alice_b) alice_b alice_table).
  intros f Hf. unfold create_fields in Hf.
  repeat (apply elem_of_cons in Hf as [-> | Hf]); [reflexivity .. |].
  by apply elem_of_nil in Hf.
Defined.
